(** * StudyVault client scripts: a shallow embedding and its properties

    The development follows the two scripts of the repository: the page
    script (star buttons, search suggestions, alert auto-hide) and
    [static/js/main.js] (file size validation).  Every handler is a pure
    function on an explicit state; the browser's timer queue, the network
    and the console are part of that state. *)

From Stdlib Require Import ZArith NArith QArith List Sorted String Ascii Bool Lia.
From stdpp Require Import base list.
Import ListNotations.

Local Open Scope Z_scope.
Set Warnings "-register-all".

(** ** JavaScript strings

    A JavaScript string is a sequence of UTF-16 code units; [length] counts
    code units. *)

Module Js.

Definition jsstring : Type := list N.

(** An ASCII literal as a JavaScript string. *)
Definition lit (s : string) : jsstring :=
  map N_of_ascii (list_ascii_of_string s).

(** The double quote, the line feed and a run of spaces, as they occur in
    the template literals of the source. *)
Definition dquote : jsstring := [34%N].
Definition nl : jsstring := [10%N].
Definition spaces (n : nat) : jsstring := repeat 32%N n.

Fixpoint eqb (a b : jsstring) : bool :=
  match a, b with
  | [], [] => true
  | x :: a', y :: b' => N.eqb x y && eqb a' b'
  | _, _ => false
  end.

(** ECMAScript WhiteSpace and LineTerminator code points, the set removed
    by [String.prototype.trim] and skipped by [parseInt]. *)
Definition is_white_space (c : N) : bool :=
  ((9 <=? c) && (c <=? 13) || (c =? 32) || (c =? 160) || (c =? 5760)
   || (8192 <=? c) && (c <=? 8202) || (c =? 8232) || (c =? 8233)
   || (c =? 8239) || (c =? 8287) || (c =? 12288) || (c =? 65279))%N.

Fixpoint trimStart (s : jsstring) : jsstring :=
  match s with
  | [] => []
  | c :: r => if is_white_space c then trimStart r else s
  end.

Definition trimEnd (s : jsstring) : jsstring := rev (trimStart (rev s)).

Definition trim (s : jsstring) : jsstring := trimEnd (trimStart s).

(** ** Numbers

    The scripts compute with counts only.  A number is an integer or NaN;
    the arithmetic below is the exact one, which is what IEEE doubles give
    for integers of magnitude below 2^53. *)

Inductive number : Type :=
| NaN
| Int (z : Z).

Definition add (a b : number) : number :=
  match a, b with
  | Int x, Int y => Int (x + y)
  | _, _ => NaN
  end.

Definition sub (a b : number) : number :=
  match a, b with
  | Int x, Int y => Int (x - y)
  | _, _ => NaN
  end.

(** [Math.max]: NaN if either argument is NaN. *)
Definition Math_max (a b : number) : number :=
  match a, b with
  | Int x, Int y => Int (Z.max x y)
  | _, _ => NaN
  end.

(** Value of a digit in the given radix (10 or 16), if it is one. *)
Definition digit_value (radix : N) (c : N) : option N :=
  if ((48 <=? c) && (c <=? 57))%N then Some (c - 48)%N
  else if (radix =? 16)%N then
    if ((97 <=? c) && (c <=? 102))%N then Some (c - 87)%N
    else if ((65 <=? c) && (c <=? 70))%N then Some (c - 55)%N
    else None
  else None.

(** The longest prefix of digits, read most significant first; [None] when
    there is no digit at all. *)
Fixpoint read_digits (radix : N) (s : jsstring) (acc : option N) : option N :=
  match s with
  | [] => acc
  | c :: r =>
    match digit_value radix c with
    | Some d => read_digits radix r (Some (match acc with
                                           | Some a => a * radix + d
                                           | None => d
                                           end)%N)
    | None => acc
    end
  end.

(** [parseInt(s)] with no radix argument: leading white space is skipped,
    a sign is read, a [0x]/[0X] prefix selects radix 16, and the longest
    run of digits is the value; no digit gives NaN. *)
Definition parseInt (s : jsstring) : number :=
  let s1 := trimStart s in
  let '(negative, s2) :=
    match s1 with
    | c :: r =>
      if (c =? 45)%N then (true, r)
      else if (c =? 43)%N then (false, r)
      else (false, s1)
    | [] => (false, s1)
    end in
  let '(radix, s3) :=
    match s2 with
    | a :: b :: r =>
      if ((a =? 48) && ((b =? 120) || (b =? 88)))%N then (16%N, r)
      else (10%N, s2)
    | _ => (10%N, s2)
    end in
  match read_digits radix s3 None with
  | None => NaN
  | Some n => Int (if negative then - Z.of_N n else Z.of_N n)
  end.

(** Decimal digits of a natural number, most significant first. *)
Fixpoint digits (fuel : nat) (n : N) : jsstring :=
  match fuel with
  | O => []
  | S f =>
    if (n <? 10)%N then [(48 + n)%N]
    else digits f (n / 10)%N ++ [(48 + n mod 10)%N]
  end.

Definition N_to_string (n : N) : jsstring := digits (S (N.to_nat (N.size n))) n.

(** [ToString] of a number. *)
Definition number_to_string (x : number) : jsstring :=
  match x with
  | NaN => lit "NaN"
  | Int z =>
    if z <? 0 then 45%N :: N_to_string (Z.to_N (- z))
    else N_to_string (Z.to_N z)
  end.

(** ** encodeURIComponent

    Code units outside the unreserved set are replaced by the percent
    escapes of the UTF-8 bytes of their code point; a surrogate that is
    not part of a pair raises URIError, here [None]. *)

Definition unreserved (c : N) : bool :=
  ((65 <=? c) && (c <=? 90) || (97 <=? c) && (c <=? 122)
   || (48 <=? c) && (c <=? 57)
   || (c =? 45) || (c =? 95) || (c =? 46) || (c =? 33) || (c =? 126)
   || (c =? 42) || (c =? 39) || (c =? 40) || (c =? 41))%N.

Definition hex_digit (n : N) : N :=
  if (n <? 10)%N then (48 + n)%N else (55 + n)%N.

Definition percent (byte : N) : jsstring :=
  [37%N; hex_digit (byte / 16); hex_digit (byte mod 16)].

Definition utf8 (cp : N) : list N :=
  (if cp <? 128 then [cp]
   else if cp <? 2048 then [192 + cp / 64; 128 + cp mod 64]
   else if cp <? 65536 then
     [224 + cp / 4096; 128 + (cp / 64) mod 64; 128 + cp mod 64]
   else
     [240 + cp / 262144; 128 + (cp / 4096) mod 64;
      128 + (cp / 64) mod 64; 128 + cp mod 64])%N.

Definition escape (cp : N) : jsstring := concat (map percent (utf8 cp)).

Definition is_high_surrogate (c : N) : bool := ((55296 <=? c) && (c <=? 56319))%N.
Definition is_low_surrogate (c : N) : bool := ((56320 <=? c) && (c <=? 57343))%N.

Fixpoint encodeURIComponent (s : jsstring) : option jsstring :=
  match s with
  | [] => Some []
  | c :: r =>
    if unreserved c then option_map (cons c) (encodeURIComponent r)
    else if is_high_surrogate c then
      match r with
      | d :: r' =>
        if is_low_surrogate d then
          option_map
            (app (escape ((c - 55296) * 1024 + (d - 56320) + 65536)%N))
            (encodeURIComponent r')
        else None
      | [] => None
      end
    else if is_low_surrogate c then None
    else option_map (app (escape c)) (encodeURIComponent r)
  end.

End Js.

(** ** Exceptions

    A computation either returns or throws; promise chains turn a throw
    into a rejection that the trailing [.catch] receives. *)

Module Exn.

Inductive error : Type :=
| FetchFailed   (* fetch() rejected: the request never got a response *)
| SyntaxError   (* res.json(): the body is not JSON *)
| TypeError.    (* property read of null, call of a non-function, ... *)

Inductive result (A : Type) : Type :=
| Ok (a : A)
| Throw (e : error).

Arguments Ok {A} a.
Arguments Throw {A} e.

Definition bind {A B : Type} (m : result A) (k : A -> result B) : result B :=
  match m with
  | Ok a => k a
  | Throw e => Throw e
  end.

Fixpoint mapM {A B : Type} (f : A -> result B) (l : list A) : result (list B) :=
  match l with
  | [] => Ok []
  | x :: r => bind (f x) (fun y => bind (mapM f r) (fun ys => Ok (y :: ys)))
  end.

End Exn.

Notation "'do' x <- m ; k" := (Exn.bind m (fun x => k))
  (at level 10, x name, m at level 100, k at level 200).

(** ** JSON values as the scripts see them *)

Module Json.
Import Js Exn.

(** What [JSON.parse] can produce.  Numbers are integers (see [Js.number]);
    an object keeps its members in source order. *)
Inductive json : Type :=
| JNull
| JBool (b : bool)
| JNum (n : Z)
| JStr (s : jsstring)
| JArr (items : list json)
| JObj (members : list (jsstring * json)).

(** A JavaScript value read out of a parsed body. *)
Inductive value : Type :=
| Undefined
| Of (j : json).

(** Own member of an object; a repeated key keeps its last value. *)
Fixpoint member (key : jsstring) (members : list (jsstring * json)) : value :=
  match members with
  | [] => Undefined
  | (k, v) :: r =>
    match member key r with
    | Undefined => if Js.eqb k key then Of v else Undefined
    | found => found
    end
  end.

(** [v.key] for the property names the scripts read ([length], [status],
    [url], [type], [name]), none of which is inherited from
    [Object.prototype].  Reading a property of [null] throws. *)
Definition get (v : json) (key : jsstring) : result value :=
  match v with
  | JNull => Throw TypeError
  | JObj members => Ok (member key members)
  | JArr items =>
    if Js.eqb key (lit "length") then Ok (Of (JNum (Z.of_nat (length items))))
    else Ok Undefined
  | JStr s =>
    if Js.eqb key (lit "length") then Ok (Of (JNum (Z.of_nat (length s))))
    else Ok Undefined
  | JNum _ | JBool _ => Ok Undefined
  end.

(** [v === s] for a string [s]. *)
Definition strict_eq_string (v : value) (s : jsstring) : bool :=
  match v with
  | Of (JStr t) => Js.eqb t s
  | _ => false
  end.

(** [v === 0]. *)
Definition strict_eq_zero (v : value) : bool :=
  match v with
  | Of (JNum n) => n =? 0
  | _ => false
  end.

Definition has_own (key : jsstring) (members : list (jsstring * json)) : bool :=
  existsb (fun kv => Js.eqb (fst kv) key) members.

Fixpoint join (sep : jsstring) (parts : list jsstring) : jsstring :=
  match parts with
  | [] => []
  | [p] => p
  | p :: r => p ++ sep ++ join sep r
  end.

(** [ToString] of a parsed value, as a template literal applies it.  An
    array joins its elements with commas, [null] elements giving the empty
    string; a plain object gives [[object Object]], unless it has an own
    member [toString], which is not callable and leaves no primitive. *)
Fixpoint json_to_string (j : json) : result jsstring :=
  match j with
  | JNull => Ok (lit "null")
  | JBool true => Ok (lit "true")
  | JBool false => Ok (lit "false")
  | JNum n => Ok (number_to_string (Int n))
  | JStr s => Ok s
  | JArr items =>
    do parts <- (fix elements (l : list json) : result (list jsstring) :=
                   match l with
                   | [] => Ok []
                   | JNull :: r => do ps <- elements r; Ok ([] :: ps)
                   | x :: r =>
                     do p <- json_to_string x;
                     do ps <- elements r;
                     Ok (p :: ps)
                   end) items;
    Ok (join (lit ",") parts)
  | JObj members =>
    if has_own (lit "toString") members then Throw TypeError
    else Ok (lit "[object Object]")
  end.

Definition to_string (v : value) : result jsstring :=
  match v with
  | Undefined => Ok (lit "undefined")
  | Of j => json_to_string j
  end.

End Json.

(** ** The timer queue of the event loop

    [setTimeout] stores a callback with its due time and returns a fresh
    identifier; [clearTimeout] removes the timer with that identifier, if
    it is still pending; the loop runs the pending timer that is due first,
    timers with the same due time in the order they were set.  Callbacks
    are descriptions ([C]) that each script interprets. *)

Module Timers.

Section Queue.

Variable C : Type.

Record timer : Type := { tid : nat; due : Z; callback : C }.

Record t : Type := { now : Z; nextId : nat; queue : list timer }.

Definition empty (start : Z) : t := {| now := start; nextId := 1; queue := [] |}.

Fixpoint enqueue (x : timer) (q : list timer) : list timer :=
  match q with
  | [] => [x]
  | y :: q' => if due x <? due y then x :: q else y :: enqueue x q'
  end.

Definition setTimeout (cb : C) (delay : Z) (T : t) : nat * t :=
  (nextId T,
   {| now := now T;
      nextId := S (nextId T);
      queue := enqueue {| tid := nextId T; due := now T + delay; callback := cb |}
                       (queue T) |}).

(** [clearTimeout(undefined)] does nothing. *)
Definition clearTimeout (id : option nat) (T : t) : t :=
  match id with
  | None => T
  | Some i =>
    {| now := now T;
       nextId := nextId T;
       queue := List.filter (fun x => negb (Nat.eqb (tid x) i)) (queue T) |}
  end.

(** The next timer to run at or before [limit]; the clock moves to its
    due time. *)
Definition pop (limit : Z) (T : t) : option (timer * t) :=
  match queue T with
  | x :: q =>
    if due x <=? limit
    then Some (x, {| now := Z.max (now T) (due x); nextId := nextId T; queue := q |})
    else None
  | [] => None
  end.

Definition tick (limit : Z) (T : t) : t :=
  {| now := Z.max (now T) limit; nextId := nextId T; queue := queue T |}.

End Queue.

Arguments tid {C} _.
Arguments due {C} _.
Arguments callback {C} _.
Arguments now {C} _.
Arguments nextId {C} _.
Arguments queue {C} _.
Arguments empty {C} start.
Arguments enqueue {C} x q.
Arguments setTimeout {C} cb delay T.
Arguments clearTimeout {C} id T.
Arguments pop {C} limit T.
Arguments tick {C} limit T.

End Timers.

(** ** Search suggestions ([initSearchSuggestions]) *)

Module Search.
Import Js Exn Json.

(** The [div.search-suggestions] element: its markup and its inline
    [style.display]. *)
Record Container : Type := { innerHTML : jsstring; display : jsstring }.

(** The arrow function given to [setTimeout]; it closes over [query]. *)
Inductive Callback : Type :=
| Lookup (query : jsstring).

(** How a [fetch] ends: the promise rejects, or a response arrives with a
    status and a body; [body] is what [res.json()] resolves to, [None]
    when it rejects because the body is not JSON. *)
Inductive FetchOutcome : Type :=
| Rejected
| Responded (status : Z) (body : option json).

Record Request : Type := { rid : nat; url : jsstring }.

Record State : Type := {
  suggestionsContainer : Container;
  timeout : option nat;             (* [let timeout;] *)
  timers : Timers.t Callback;
  issued : list Request;            (* every fetch so far, oldest first *)
  inflight : list Request;          (* those still waiting for an answer *)
  console : list error              (* [console.error('Search error:', err)] *)
}.

Definition with_container (c : Container) (st : State) : State :=
  {| suggestionsContainer := c; timeout := timeout st; timers := timers st;
     issued := issued st; inflight := inflight st; console := console st |}.

Definition with_timers (id : option nat) (T : Timers.t Callback) (st : State) : State :=
  {| suggestionsContainer := suggestionsContainer st; timeout := id; timers := T;
     issued := issued st; inflight := inflight st; console := console st |}.

Definition log (e : error) (st : State) : State :=
  {| suggestionsContainer := suggestionsContainer st; timeout := timeout st;
     timers := timers st; issued := issued st; inflight := inflight st;
     console := console st ++ [e] |}.

(** State right after [initSearchSuggestions] when the search input
    exists: a fresh, empty container and no timer. *)
Definition initSearchSuggestions (start : Z) : State :=
  {| suggestionsContainer := {| innerHTML := []; display := [] |};
     timeout := None;
     timers := Timers.empty start;
     issued := []; inflight := []; console := [] |}.

(** [fetch(url)]: the request leaves and stays in flight. *)
Definition fetch (u : jsstring) (st : State) : State :=
  let r := {| rid := length (issued st); url := u |} in
  {| suggestionsContainer := suggestionsContainer st; timeout := timeout st;
     timers := timers st; issued := issued st ++ [r];
     inflight := inflight st ++ [r]; console := console st |}.

(** The timer callback.  [encodeURIComponent] throws on a lone surrogate,
    outside any promise: nothing is fetched and nothing is logged. *)
Definition fire (cb : Callback) (st : State) : State :=
  match cb with
  | Lookup query =>
    match encodeURIComponent query with
    | Some q => fetch (lit "/api/search/suggest?q=" ++ q) st
    | None => st
    end
  end.

(** The [input] listener. *)
Definition on_input (value : jsstring) (st : State) : State :=
  let T := Timers.clearTimeout (timeout st) (timers st) in
  let query := trim value in
  if (length query <? 2)%nat then
    with_container {| innerHTML := []; display := lit "none" |}
                   (with_timers (timeout st) T st)
  else
    let '(id, T') := Timers.setTimeout (Lookup query) 300 T in
    with_timers (Some id) T' st.

(** The template literal mapped over the items. *)
Definition item_markup (item : json) : result jsstring :=
  do u <- get item (lit "url");
  do href <- to_string u;
  do ty <- get item (lit "type");
  do n <- get item (lit "name");
  do label <- to_string n;
  Ok (nl ++ spaces 24 ++ lit "<a href=" ++ dquote ++ href ++ dquote
      ++ lit " class=" ++ dquote ++ lit "suggestion-item" ++ dquote ++ lit ">"
      ++ nl ++ spaces 28 ++ lit "<i class=" ++ dquote ++ lit "bi "
      ++ (if strict_eq_string ty (lit "folder")
          then lit "bi-folder" else lit "bi-file-earmark")
      ++ lit " me-2" ++ dquote ++ lit "></i>"
      ++ nl ++ spaces 28 ++ label
      ++ nl ++ spaces 24 ++ lit "</a>"
      ++ nl ++ spaces 20).

(** The [.then(data => ...)] callback.  Only an array has a [map] to
    call. *)
Definition on_data (data : json) (c : Container) : result Container :=
  do len <- get data (lit "length");
  if strict_eq_zero len then
    Ok {| innerHTML := innerHTML c; display := lit "none" |}
  else
    match data with
    | JArr items =>
      do parts <- mapM item_markup items;
      Ok {| innerHTML := concat parts; display := lit "block" |}
    | _ => Throw TypeError
    end.

(** The promise chain [fetch(..).then(res => res.json()).then(..).catch(..)]
    once the fetch has settled. *)
Definition on_settled (o : FetchOutcome) (st : State) : State :=
  match o with
  | Rejected => log FetchFailed st
  | Responded _ None => log SyntaxError st
  | Responded _ (Some data) =>
    match on_data data (suggestionsContainer st) with
    | Ok c => with_container c st
    | Throw e => log e st
    end
  end.

Definition is_inflight (i : nat) (st : State) : bool :=
  existsb (fun r => Nat.eqb (rid r) i) (inflight st).

(** The answer to request [i] comes in; a request is answered once. *)
Definition arrive (i : nat) (o : FetchOutcome) (st : State) : State :=
  if is_inflight i st then
    on_settled o
      {| suggestionsContainer := suggestionsContainer st; timeout := timeout st;
         timers := timers st; issued := issued st;
         inflight := List.filter (fun r => negb (Nat.eqb (rid r) i)) (inflight st);
         console := console st |}
  else st.

(** The document [click] listener; the two flags are the results of
    [searchInput.contains(e.target)] and
    [suggestionsContainer.contains(e.target)]. *)
Definition on_click (in_searchInput in_suggestionsContainer : bool) (st : State) : State :=
  if negb in_searchInput && negb in_suggestionsContainer then
    with_container {| innerHTML := innerHTML (suggestionsContainer st);
                      display := lit "none" |} st
  else st.

(** Run the timers that are due at or before [limit]. *)
Fixpoint run_timers (fuel : nat) (limit : Z) (st : State) : State :=
  match fuel with
  | O => st
  | S f =>
    match Timers.pop limit (timers st) with
    | Some (x, T) => run_timers f limit (fire (Timers.callback x) (with_timers (timeout st) T st))
    | None => st
    end
  end.

(** Let the clock reach [limit].  No callback of this script sets a timer,
    so the length of the queue bounds the number of timers to run. *)
Definition advance (limit : Z) (st : State) : State :=
  let st' := run_timers (length (Timers.queue (timers st))) limit st in
  with_timers (timeout st') (Timers.tick limit (timers st')) st'.

Inductive Event : Type :=
| Input (value : jsstring)
| Click (in_searchInput in_suggestionsContainer : bool)
| Arrive (i : nat) (o : FetchOutcome).

Definition handle (e : Event) (st : State) : State :=
  match e with
  | Input value => on_input value st
  | Click a b => on_click a b st
  | Arrive i o => arrive i o st
  end.

(** A timed event: the timers due by then run first. *)
Definition step (st : State) (te : Z * Event) : State :=
  handle (snd te) (advance (fst te) st).

Definition run (trace : list (Z * Event)) (st : State) : State :=
  fold_left step trace st.

End Search.

(** ** DOMTokenList ([classList]) *)

Module ClassList.
Import Js.

Definition contains (token : jsstring) (l : list jsstring) : bool :=
  existsb (Js.eqb token) l.

Definition add (token : jsstring) (l : list jsstring) : list jsstring :=
  if contains token l then l else l ++ [token].

Definition remove (token : jsstring) (l : list jsstring) : list jsstring :=
  List.filter (fun c => negb (Js.eqb token c)) l.

End ClassList.

(** ** Star buttons ([initStarButtons]) *)

Module Stars.
Import Js Exn Json.

(** One [.star-btn] with what the click listener reads: its class list,
    the class list of its [i] child and the text of its [span] child,
    either of which may be missing ([querySelector] gives [null]). *)
Record Button : Type := {
  classList : list jsstring;
  icon : option (list jsstring);
  countSpan : option jsstring
}.

Record State : Type := {
  button : Button;
  console : list error          (* [console.error('Star error:', err)] *)
}.

(** The [.then(data => ...)] callback.  The first statement of either
    branch dereferences [icon], so a missing icon throws before anything
    is changed. *)
Definition on_data (data : json) (btn : Button) : result Button :=
  do status <- get data (lit "status");
  match icon btn with
  | None => Throw TypeError
  | Some classes =>
    if strict_eq_string status (lit "starred") then
      Ok {| classList := ClassList.add (lit "active") (classList btn);
            icon := Some (ClassList.add (lit "bi-star-fill")
                            (ClassList.remove (lit "bi-star") classes));
            countSpan :=
              match countSpan btn with
              | Some text => Some (number_to_string (add (parseInt text) (Int 1)))
              | None => None
              end |}
    else
      Ok {| classList := ClassList.remove (lit "active") (classList btn);
            icon := Some (ClassList.add (lit "bi-star")
                            (ClassList.remove (lit "bi-star-fill") classes));
            countSpan :=
              match countSpan btn with
              | Some text =>
                Some (number_to_string
                        (Math_max (Int 0) (sub (parseInt text) (Int 1))))
              | None => None
              end |}
  end.

(** The promise chain of the click listener once the POST has settled:
    [None] when [fetch] rejects, otherwise what [response.json()] gives. *)
Definition on_settled (o : option (option json)) (st : State) : State :=
  match o with
  | None => {| button := button st; console := console st ++ [FetchFailed] |}
  | Some None => {| button := button st; console := console st ++ [SyntaxError] |}
  | Some (Some data) =>
    match on_data data (button st) with
    | Ok b => {| button := b; console := console st |}
    | Throw e => {| button := button st; console := console st ++ [e] |}
    end
  end.

(** The count a button shows, as [parseInt] reads it back. *)
Definition shown_count (btn : Button) : option number :=
  option_map parseInt (countSpan btn).

End Stars.

(** ** Alert auto-hide ([initAutoHideAlerts]) *)

Module Alerts.
Import Js.

(** An element of the page with the properties the script touches. *)
Record Element : Type := {
  classList : list jsstring;
  transition : jsstring;        (* style.transition *)
  opacity : jsstring;           (* style.opacity *)
  attached : bool               (* still in the document *)
}.

(** The two arrow functions given to [setTimeout]; each closes over the
    alert, an element of the page identified by its position. *)
Inductive Callback : Type :=
| Fade (i : nat)
| Remove (i : nat).

Record State : Type := {
  page : list Element;
  timers : Timers.t Callback
}.

(** Membership in [document.querySelectorAll('.alert')]. *)
Definition is_alert (e : Element) : bool :=
  attached e && ClassList.contains (lit "alert") (classList e).

Definition is_permanent (e : Element) : bool :=
  ClassList.contains (lit "alert-permanent") (classList e).

(** The [forEach] over the alerts, [elements] being the page from
    position [i] on: an alert that is not permanent gets a timer. *)
Fixpoint forEach_alert (i : nat) (elements : list Element)
         (T : Timers.t Callback) : Timers.t Callback :=
  match elements with
  | [] => T
  | e :: rest =>
    forEach_alert (S i) rest
      (if is_alert e && negb (is_permanent e)
       then snd (Timers.setTimeout (Fade i) 5000 T)
       else T)
  end.


Definition fade (e : Element) : Element :=
  {| classList := classList e; transition := lit "opacity 0.5s";
     opacity := lit "0"; attached := attached e |}.

(** [alert.remove()]. *)
Definition detach (e : Element) : Element :=
  {| classList := classList e; transition := transition e;
     opacity := opacity e; attached := false |}.

Definition fire (cb : Callback) (st : State) : State :=
  match cb with
  | Fade i =>
    {| page := alter fade i (page st);
       timers := snd (Timers.setTimeout (Remove i) 500 (timers st)) |}
  | Remove i =>
    {| page := alter detach i (page st); timers := timers st |}
  end.

Fixpoint run_timers (fuel : nat) (limit : Z) (st : State) : State :=
  match fuel with
  | O => st
  | S f =>
    match Timers.pop limit (timers st) with
    | Some (x, T) =>
      run_timers f limit (fire (Timers.callback x) {| page := page st; timers := T |})
    | None => st
    end
  end.

(** Let the clock reach [limit].  A [Fade] sets one more timer and a
    [Remove] none, so twice the length of the queue bounds the number of
    timers to run. *)
Definition advance (limit : Z) (st : State) : State :=
  let st' := run_timers (2 * length (Timers.queue (timers st))) limit st in
  {| page := page st'; timers := Timers.tick limit (timers st') |}.

End Alerts.

(** ** File size validation ([validateFileSize], static/js/main.js) *)

Module FileSize.
Import Js.

Record File : Type := { name : jsstring; size : Z }.

(** The file input: its [files] and its [value]. *)
Record InputElement : Type := { files : list File; value : jsstring }.

(** The [alert(...)] message, by the two values its template shows. *)
Inductive Message : Type :=
| TooLarge (file_name : jsstring) (maxSizeMB : Q).

Record Outcome : Type := {
  returned : bool;
  input_after : InputElement;
  alerts : list Message
}.

(** The [for] loop from index [i] on, [rest] being [files[i..]]. *)
Fixpoint loop (maxSizeMB maxSize : Q) (input : InputElement) (rest : list File) : Outcome :=
  match rest with
  | [] => {| returned := true; input_after := input; alerts := [] |}
  | f :: rest' =>
    if negb (Qle_bool (inject_Z (size f)) maxSize) then
      {| returned := false;
         input_after := {| files := files input; value := [] |};
         alerts := [TooLarge (name f) maxSizeMB] |}
    else loop maxSizeMB maxSize input rest'
  end.

(** [maxSizeMB] is a finite number; multiplying by 1024 twice is exact in
    binary floating point, so the rational product is the limit the code
    compares with. *)
Definition validateFileSize (input : InputElement) (maxSizeMB : Q) : Outcome :=
  let maxSize := (maxSizeMB * 1024 * 1024)%Q in
  loop maxSizeMB maxSize input (files input).

End FileSize.

(** ** Rating stars ([initRatingStars]) *)

Module Rating.
Import Js Exn.

(** One [.rating-input]: the class list of each of its [i] elements, in
    document order, and the value of its hidden input, [None] when
    [querySelector] finds no such input. *)
Record Container : Type := {
  stars : list (list jsstring);
  input : option jsstring
}.

(** The inner [forEach] of the click listener, for the star at [i]. *)
Definition refill (value : nat) (i : nat) (s : list jsstring) : list jsstring :=
  if (i <? value)%nat
  then ClassList.add (lit "bi-star-fill") (ClassList.remove (lit "bi-star") s)
  else ClassList.add (lit "bi-star") (ClassList.remove (lit "bi-star-fill") s).

(** The click listener of the star at [index].  [input.value = value]
    comes first and throws when there is no input. *)
Definition on_click (index : nat) (c : Container) : result Container :=
  let value := (index + 1)%nat in
  match input c with
  | None => Throw TypeError
  | Some _ =>
    Ok {| stars := imap (refill value) (stars c);
          input := Some (number_to_string (Int (Z.of_nat value))) |}
  end.

Definition on_mouseenter (index : nat) (c : Container) : Container :=
  {| stars := imap (fun i s => if (i <=? index)%nat
                               then ClassList.add (lit "text-warning") s
                               else s) (stars c);
     input := input c |}.

Definition on_mouseleave (c : Container) : Container :=
  {| stars := map (ClassList.remove (lit "text-warning")) (stars c);
     input := input c |}.

Inductive Event : Type :=
| Click (index : nat)
| MouseEnter (index : nat)
| MouseLeave (index : nat).

Definition index_of (e : Event) : nat :=
  match e with
  | Click i | MouseEnter i | MouseLeave i => i
  end.

(** An event on the star at [index_of e]; only the stars of the container
    have listeners, and an exception leaves the listener with nothing
    done. *)
Definition handle (c : Container) (e : Event) : Container :=
  if (index_of e <? length (stars c))%nat then
    match e with
    | Click i =>
      match on_click i c with
      | Ok c' => c'
      | Throw _ => c
      end
    | MouseEnter i => on_mouseenter i c
    | MouseLeave _ => on_mouseleave c
    end
  else c.

Definition run (events : list Event) (c : Container) : Container :=
  fold_left handle events c.

End Rating.

(** ** Bottom navigation on mobile ([initMobileNav]) *)

Module MobileNav.
Import Js.

(** What a scroll event finds: [window.pageYOffset] and
    [document.documentElement.scrollTop].  Positions are finite numbers,
    here rationals; the script only compares them. *)
Record Scroll : Type := { pageYOffset : Q; documentScrollTop : Q }.

(** [window.pageYOffset || document.documentElement.scrollTop]: zero is
    falsy. *)
Definition scrollTop (s : Scroll) : Q :=
  if Qeq_bool (pageYOffset s) 0 then documentScrollTop s else pageYOffset s.

Record Nav : Type := {
  lastScrollTop : Q;
  transform : jsstring            (* mobileNav.style.transform *)
}.

Definition initMobileNav : Nav := {| lastScrollTop := 0; transform := [] |}.

Definition gt (a b : Q) : bool := negb (Qle_bool a b).

(** The scroll listener. *)
Definition on_scroll (nav : Nav) (s : Scroll) : Nav :=
  {| lastScrollTop := scrollTop s;
     transform := if gt (scrollTop s) (lastScrollTop nav) && gt (scrollTop s) 100
                  then lit "translateY(100%)"
                  else lit "translateY(0)" |}.

Definition run (events : list Scroll) (nav : Nav) : Nav :=
  fold_left on_scroll events nav.

End MobileNav.

(** ** File names ([getFileIcon], [getFileExtension]) *)

Module FileNames.
Import Js.

(** [name.split('.').pop()]: what follows the last full stop, the whole
    name when there is none. *)
Fixpoint last_segment_from (acc : jsstring) (s : jsstring) : jsstring :=
  match s with
  | [] => acc
  | c :: r =>
    if (c =? 46)%N then last_segment_from [] r
    else last_segment_from (acc ++ [c]) r
  end.

Definition last_segment (s : jsstring) : jsstring := last_segment_from [] s.

Definition is_ascii (c : N) : bool := (c <? 128)%N.

Definition lower (c : N) : N :=
  if ((65 <=? c) && (c <=? 90))%N then (c + 32)%N else c.

Definition upper (c : N) : N :=
  if ((97 <=? c) && (c <=? 122))%N then (c - 32)%N else c.

(** [toLowerCase] and [toUpperCase] on strings of ASCII characters, where
    they change the 26 letters and nothing else; [None] for a string with
    other code units, whose conversion follows the Unicode tables. *)
Definition toLowerCase (s : jsstring) : option jsstring :=
  if forallb is_ascii s then Some (map lower s) else None.

Definition toUpperCase (s : jsstring) : option jsstring :=
  if forallb is_ascii s then Some (map upper s) else None.

(** The object literal [icons]. *)
Definition icons : list (jsstring * jsstring) :=
  [(lit "pdf", lit "bi-file-earmark-pdf text-danger");
   (lit "jpg", lit "bi-file-earmark-image text-success");
   (lit "jpeg", lit "bi-file-earmark-image text-success");
   (lit "png", lit "bi-file-earmark-image text-success");
   (lit "gif", lit "bi-file-earmark-image text-success");
   (lit "mp3", lit "bi-file-earmark-music text-warning");
   (lit "mp4", lit "bi-file-earmark-play text-primary");
   (lit "doc", lit "bi-file-earmark-word text-info");
   (lit "docx", lit "bi-file-earmark-word text-info");
   (lit "ppt", lit "bi-file-earmark-ppt text-danger");
   (lit "pptx", lit "bi-file-earmark-ppt text-danger");
   (lit "txt", lit "bi-file-earmark-text text-secondary")].

Fixpoint own (key : jsstring) (table : list (jsstring * jsstring)) : option jsstring :=
  match table with
  | [] => None
  | (k, v) :: rest => if Js.eqb k key then Some v else own key rest
  end.

(** What [getFileIcon] returns: a class string, or, for the two lower-case
    names that [icons] inherits from [Object.prototype], the inherited
    value, which is truthy and so is returned as it is. *)
Inductive Icon : Type :=
| Classes (s : jsstring)
| ObjectConstructor           (* [icons.constructor] *)
| ObjectPrototype.            (* [icons.__proto__] *)

(** [icons[ext] || 'bi-file-earmark text-secondary'], every string of
    [icons] being non-empty. *)
Definition icon_for (ext : jsstring) : Icon :=
  match own ext icons with
  | Some v => Classes v
  | None =>
    if Js.eqb ext (lit "constructor") then ObjectConstructor
    else if Js.eqb ext (lit "__proto__") then ObjectPrototype
    else Classes (lit "bi-file-earmark text-secondary")
  end.

Definition getFileIcon (filename : jsstring) : option Icon :=
  option_map icon_for (toLowerCase (last_segment filename)).

Definition getFileExtension (filename : jsstring) : option jsstring :=
  toUpperCase (last_segment filename).

End FileNames.

(** ** Toasts ([showToast], [copyToClipboard]) *)

Module Toast.
Import Js.

(** A toast: the tokens of its [class] attribute, its markup, and whether
    it is still in the document. *)
Record Element : Type := {
  classList : list jsstring;
  innerHTML : jsstring;
  attached : bool
}.

(** The three arrow functions given to [setTimeout]; each closes over the
    toast, identified by its position among the toasts made so far. *)
Inductive Callback : Type :=
| Show (i : nat)
| Hide (i : nat)
| Remove (i : nat).

Record State : Type := {
  toasts : list Element;
  timers : Timers.t Callback;
  console : list jsstring          (* [console.error('Copy failed:', err)] *)
}.








Definition with_class (f : list jsstring -> list jsstring) (e : Element) : Element :=
  {| classList := f (classList e); innerHTML := innerHTML e;
     attached := attached e |}.

(** [toast.remove()]. *)
Definition detach (e : Element) : Element :=
  {| classList := classList e; innerHTML := innerHTML e; attached := false |}.

Definition fire (cb : Callback) (st : State) : State :=
  match cb with
  | Show i =>
    {| toasts := alter (with_class (ClassList.add (lit "show"))) i (toasts st);
       timers := timers st; console := console st |}
  | Hide i =>
    {| toasts := alter (with_class (ClassList.remove (lit "show"))) i (toasts st);
       timers := snd (Timers.setTimeout (Remove i) 300 (timers st));
       console := console st |}
  | Remove i =>
    {| toasts := alter detach i (toasts st);
       timers := timers st; console := console st |}
  end.

Fixpoint run_timers (fuel : nat) (limit : Z) (st : State) : State :=
  match fuel with
  | O => st
  | S f =>
    match Timers.pop limit (timers st) with
    | Some (x, T) =>
      run_timers f limit
        (fire (Timers.callback x)
              {| toasts := toasts st; timers := T; console := console st |})
    | None => st
    end
  end.

(** Let the clock reach [limit].  A [Hide] sets one more timer, the other
    callbacks none, so twice the length of the queue bounds the number of
    timers to run. *)
Definition advance (limit : Z) (st : State) : State :=
  let st' := run_timers (2 * length (Timers.queue (timers st))) limit st in
  {| toasts := toasts st'; timers := Timers.tick limit (timers st');
     console := console st' |}.

End Toast.

(** * Properties *)

(** ** Strings and numbers *)

Module JsFacts.
Import Js.

Lemma eqb_eq (a b : jsstring) : Js.eqb a b = true <-> a = b.
Proof.
  revert b. induction a as [|x a IH]; intros [|y b]; simpl; split;
    try congruence; try reflexivity.
  - intros H. apply andb_true_iff in H as [Hx Hab].
    apply N.eqb_eq in Hx. apply IH in Hab. congruence.
  - intros H. injection H as -> ->. rewrite N.eqb_refl. simpl. now apply IH.
Qed.

Lemma eqb_refl (a : jsstring) : Js.eqb a a = true.
Proof. now apply eqb_eq. Qed.

Definition is_decimal (c : N) : Prop := (48 <= c <= 57)%N.

Lemma decimal_value (n : N) :
  (n < 10)%N -> digit_value 10 (48 + n) = Some n.
Proof.
  intros H. unfold digit_value.
  replace ((48 <=? 48 + n)%N) with true by (symmetry; apply N.leb_le; lia).
  replace ((48 + n <=? 57)%N) with true by (symmetry; apply N.leb_le; lia).
  simpl. f_equal. lia.
Qed.

Lemma digits_decimal (fuel : nat) (n : N) : Forall is_decimal (digits fuel n).
Proof.
  revert n. induction fuel as [|f IH]; intros n; simpl.
  - constructor.
  - destruct (N.ltb_spec n 10).
    + constructor; [unfold is_decimal; lia | constructor].
    + apply Forall_app. split; [apply IH|].
      constructor; [|constructor].
      unfold is_decimal.
      assert (n mod 10 < 10)%N as Hm by (apply N.mod_lt; discriminate).
      revert Hm. generalize (n mod 10)%N. intros m Hm. lia.
Qed.

Lemma digits_nonempty (f : nat) (n : N) : digits (S f) n <> [].
Proof.
  simpl. destruct (n <? 10)%N; [discriminate|].
  destruct (digits f (n / 10)); discriminate.
Qed.

Lemma digits_S (f : nat) (n : N) :
  digits (S f) n =
  if (n <? 10)%N then [(48 + n)%N] else digits f (n / 10)%N ++ [(48 + n mod 10)%N].
Proof. reflexivity. Qed.

(** Reading back the digits of [n] gives [n], whatever follows. *)
Lemma read_digits_digits (f : nat) :
  forall (n : N) (rest : jsstring),
    (n < 2 ^ N.of_nat f)%N ->
    read_digits 10 (digits (S f) n ++ rest) None = read_digits 10 rest (Some n).
Proof.
  induction f as [|f IH]; intros n rest Hn.
  - assert (n = 0%N) by (simpl in Hn; lia). subst n. reflexivity.
  - rewrite digits_S. destruct (N.ltb_spec n 10) as [Hlt|Hge].
    + cbn [app read_digits]. now rewrite decimal_value.
    + rewrite <- app_assoc. rewrite IH.
      * cbn [app read_digits].
        rewrite decimal_value by (apply N.mod_lt; discriminate).
        do 2 f_equal. rewrite N.mul_comm. symmetry. apply N.div_mod. discriminate.
      * rewrite Nat2N.inj_succ, N.pow_succ_r' in Hn.
        apply N.Div0.div_lt_upper_bound. lia.
Qed.

Lemma read_N_to_string (n : N) : read_digits 10 (N_to_string n) None = Some n.
Proof.
  unfold N_to_string.
  rewrite <- (app_nil_r (digits _ n)), read_digits_digits; [reflexivity|].
  rewrite N2Nat.id. apply N.size_gt.
Qed.

Lemma decimal_not_space (c : N) : is_decimal c -> is_white_space c = false.
Proof.
  unfold is_decimal, is_white_space. intros H.
  repeat (apply orb_false_iff; split);
    try (apply N.eqb_neq; lia);
    apply andb_false_iff; (left; apply N.leb_gt; lia) || (right; apply N.leb_gt; lia).
Qed.

(** [parseInt] of a run of decimal digits reads the run in radix 10. *)
Lemma parseInt_decimal (s : jsstring) :
  Forall is_decimal s ->
  parseInt s = match read_digits 10 s None with
               | None => NaN
               | Some n => Int (Z.of_N n)
               end.
Proof.
  intros Hs. unfold parseInt.
  destruct s as [|c r]; [reflexivity|].
  pose proof (Forall_inv Hs) as Hc.
  cbn [trimStart]. rewrite (decimal_not_space c Hc).
  unfold is_decimal in Hc.
  replace ((c =? 45)%N) with false by (symmetry; apply N.eqb_neq; lia).
  replace ((c =? 43)%N) with false by (symmetry; apply N.eqb_neq; lia).
  destruct r as [|b r]; [reflexivity|].
  pose proof (Forall_inv (Forall_inv_tail Hs)) as Hb. unfold is_decimal in Hb.
  replace ((b =? 120)%N) with false by (symmetry; apply N.eqb_neq; lia).
  replace ((b =? 88)%N) with false by (symmetry; apply N.eqb_neq; lia).
  now rewrite andb_false_r.
Qed.

(** [parseInt] of a minus sign and a run of decimal digits. *)
Lemma parseInt_minus_decimal (s : jsstring) :
  Forall is_decimal s ->
  parseInt (45%N :: s) = match read_digits 10 s None with
                         | None => NaN
                         | Some n => Int (- Z.of_N n)
                         end.
Proof.
  intros Hs. unfold parseInt. cbn [trimStart].
  change (is_white_space 45) with false. cbn iota.
  change ((45 =? 45)%N) with true. cbn iota.
  destruct s as [|a [|b r]]; try reflexivity.
  pose proof (Forall_inv (Forall_inv_tail Hs)) as Hb. unfold is_decimal in Hb.
  replace ((b =? 120)%N) with false by (symmetry; apply N.eqb_neq; lia).
  replace ((b =? 88)%N) with false by (symmetry; apply N.eqb_neq; lia).
  now rewrite andb_false_r.
Qed.

(** The text written for a count reads back as that count. *)
Lemma parseInt_number_to_string (z : Z) :
  parseInt (number_to_string (Int z)) = Int z.
Proof.
  unfold number_to_string. destruct (Z.ltb_spec z 0).
  - rewrite parseInt_minus_decimal by apply digits_decimal.
    rewrite read_N_to_string. f_equal. lia.
  - rewrite parseInt_decimal by apply digits_decimal.
    rewrite read_N_to_string. f_equal. lia.
Qed.

(** *** What [trim] and [encodeURIComponent] give *)

Lemma trimStart_Forall (P : N -> Prop) (s : jsstring) :
  Forall P s -> Forall P (trimStart s).
Proof.
  induction 1 as [|c s Hc Hs IH]; simpl; [constructor|].
  destruct (is_white_space c); [exact IH | now constructor].
Qed.

Lemma trim_Forall (P : N -> Prop) (s : jsstring) :
  Forall P s -> Forall P (trim s).
Proof.
  intros H. unfold trim, trimEnd.
  apply Forall_rev, trimStart_Forall, Forall_rev, trimStart_Forall, H.
Qed.

(** A code unit of a string, and a character that needs no escape in a
    URL component or is the percent sign of an escape. *)
Definition code_unit (c : N) : Prop := (c < 65536)%N.

Definition url_safe (c : N) : Prop := unreserved c = true \/ c = 37%N.

Lemma hex_digit_unreserved (n : N) : (n < 16)%N -> unreserved (hex_digit n) = true.
Proof.
  intros H. unfold hex_digit, unreserved.
  destruct (N.ltb_spec n 10) as [Hd|Hd].
  - replace ((48 <=? 48 + n)%N) with true by (symmetry; apply N.leb_le; lia).
    replace ((48 + n <=? 57)%N) with true by (symmetry; apply N.leb_le; lia).
    cbn [andb]. now rewrite orb_true_r.
  - replace ((65 <=? 55 + n)%N) with true by (symmetry; apply N.leb_le; lia).
    replace ((55 + n <=? 90)%N) with true by (symmetry; apply N.leb_le; lia).
    reflexivity.
Qed.

Lemma percent_safe (byte : N) : (byte < 256)%N -> Forall url_safe (percent byte).
Proof.
  intros H. unfold percent.
  apply List.Forall_cons; [now right|].
  apply List.Forall_cons;
    [left; apply hex_digit_unreserved; now apply N.Div0.div_lt_upper_bound|].
  apply List.Forall_cons; [|apply List.Forall_nil].
  left. apply hex_digit_unreserved. now apply N.mod_lt.
Qed.

Lemma utf8_bytes (cp : N) :
  (cp < 1114112)%N -> Forall (fun b => (b < 256)%N) (utf8 cp).
Proof.
  intros H. unfold utf8.
  assert (forall x, (128 + x mod 64 < 256)%N) as Hlow.
  { intros x. assert (x mod 64 < 64)%N by (now apply N.mod_lt). lia. }
  assert (cp / 64 < 32 \/ 2048 <= cp)%N as H64
    by (destruct (N.ltb_spec cp 2048);
        [left; now apply N.Div0.div_lt_upper_bound | now right]).
  assert (cp / 4096 < 16 \/ 65536 <= cp)%N as H4096
    by (destruct (N.ltb_spec cp 65536);
        [left; now apply N.Div0.div_lt_upper_bound | now right]).
  assert (cp / 262144 < 5)%N as Htop
    by (apply N.Div0.div_lt_upper_bound; lia).
  revert H64 H4096 Htop.
  generalize (cp / 64)%N (cp / 4096)%N (cp / 262144)%N. intros a b c H64 H4096 Htop.
  destruct (N.ltb_spec cp 128); [|destruct (N.ltb_spec cp 2048);
                                   [|destruct (N.ltb_spec cp 65536)]];
    repeat (apply List.Forall_cons; [first [apply Hlow | lia]|]);
    apply List.Forall_nil.
Qed.

Lemma escape_safe (cp : N) : (cp < 1114112)%N -> Forall url_safe (escape cp).
Proof.
  intros H. unfold escape. apply utf8_bytes in H.
  induction H as [|b l Hb _ IH]; cbn [map concat]; [constructor|].
  apply Forall_app. split; [now apply percent_safe | exact IH].
Qed.

Lemma surrogate_pair_scalar (c d : N) :
  is_high_surrogate c = true ->
  is_low_surrogate d = true ->
  ((c - 55296) * 1024 + (d - 56320) + 65536 < 1114112)%N.
Proof.
  unfold is_high_surrogate, is_low_surrogate.
  intros Hc Hd.
  apply andb_true_iff in Hc as [Hc1 Hc2]. apply andb_true_iff in Hd as [Hd1 Hd2].
  apply N.leb_le in Hc1, Hc2, Hd1, Hd2. lia.
Qed.

(** What [encodeURIComponent] returns is made of unreserved characters and
    percent signs only. *)
Lemma encodeURIComponent_safe (n : nat) :
  forall s e,
    (length s <= n)%nat ->
    Forall code_unit s ->
    encodeURIComponent s = Some e ->
    Forall url_safe e.
Proof.
  induction n as [|n IH]; intros s e Hlen Hs He.
  - destruct s; [|simpl in Hlen; lia]. injection He as <-. constructor.
  - destruct s as [|c r]; [injection He as <-; constructor|].
    simpl in Hlen. pose proof (Forall_inv Hs) as Hc.
    pose proof (Forall_inv_tail Hs) as Hr. unfold code_unit in Hc.
    cbn [encodeURIComponent] in He.
    destruct (unreserved c) eqn:Eu.
    { destruct (encodeURIComponent r) as [e'|] eqn:Er; [|discriminate].
      injection He as <-. constructor; [now left|].
      apply (IH r e'); [lia | exact Hr | exact Er]. }
    destruct (is_high_surrogate c) eqn:Eh.
    { destruct r as [|d r']; [discriminate|].
      destruct (is_low_surrogate d) eqn:El; [|discriminate].
      destruct (encodeURIComponent r') as [e'|] eqn:Er; [|discriminate].
      injection He as <-. apply Forall_app. split.
      - apply escape_safe. now apply surrogate_pair_scalar.
      - apply (IH r' e'); [simpl in Hlen; lia | now apply Forall_inv_tail in Hr | exact Er]. }
    destruct (is_low_surrogate c); [discriminate|].
    destruct (encodeURIComponent r) as [e'|] eqn:Er'; [|discriminate].
    injection He as <-. apply Forall_app. split.
    + apply escape_safe. lia.
    + apply (IH r e'); [lia | exact Hr | exact Er'].
Qed.

End JsFacts.

(** ** The timer queue *)

Module TimersFacts.

Section Sorted.

Variable C : Type.

(** The queue is kept in the order in which its timers are due. *)
Definition sorted (q : list (Timers.timer C)) : Prop :=
  StronglySorted (fun x y => Timers.due x <= Timers.due y) q.

Lemma enqueue_In (x y : Timers.timer C) (q : list (Timers.timer C)) :
  In y (Timers.enqueue x q) <-> y = x \/ In y q.
Proof.
  induction q as [|z q IH]; simpl; [intuition|].
  destruct (Timers.due x <? Timers.due z); simpl; [intuition|].
  rewrite IH. intuition.
Qed.

Lemma enqueue_sorted (x : Timers.timer C) (q : list (Timers.timer C)) :
  sorted q -> sorted (Timers.enqueue x q).
Proof.
  unfold sorted. induction 1 as [|y q Hq IH Hy]; simpl.
  - repeat constructor.
  - destruct (Z.ltb_spec (Timers.due x) (Timers.due y)) as [Hlt|Hge].
    + constructor; [now constructor|]. constructor; [lia|].
      eapply List.Forall_impl; [|exact Hy]. simpl. intros z Hz. lia.
    + constructor; [exact IH|].
      apply List.Forall_forall. intros z Hz.
      apply enqueue_In in Hz as [->|Hz]; [exact Hge|].
      rewrite List.Forall_forall in Hy. now apply Hy.
Qed.

Lemma filter_sorted (f : Timers.timer C -> bool) (q : list (Timers.timer C)) :
  sorted q -> sorted (List.filter f q).
Proof.
  unfold sorted. induction 1 as [|y q Hq IH Hy]; simpl; [constructor|].
  destruct (f y); [|exact IH].
  constructor; [exact IH|].
  apply List.Forall_forall. intros z Hz. apply filter_In in Hz as [Hz _].
  rewrite List.Forall_forall in Hy. now apply Hy.
Qed.

Lemma clearTimeout_sorted (id : option nat) (T : Timers.t C) :
  sorted (Timers.queue T) -> sorted (Timers.queue (Timers.clearTimeout id T)).
Proof. destruct id; simpl; [apply filter_sorted | trivial]. Qed.

Lemma sorted_tail (x : Timers.timer C) (q : list (Timers.timer C)) :
  sorted (x :: q) -> sorted q.
Proof. unfold sorted. intros H. now apply StronglySorted_inv in H. Qed.

(** When the first timer is not due, none is. *)
Lemma sorted_not_due (limit : Z) (x : Timers.timer C) (q : list (Timers.timer C)) :
  sorted (x :: q) ->
  limit < Timers.due x ->
  Forall (fun y => limit < Timers.due y) (x :: q).
Proof.
  unfold sorted. intros H Hx. apply StronglySorted_inv in H as [_ H].
  constructor; [exact Hx|].
  eapply List.Forall_impl; [|exact H]. simpl. intros z Hz. lia.
Qed.

End Sorted.

Arguments sorted {C} q.

End TimersFacts.

(** ** Class lists *)

Module ClassListFacts.
Import Js ClassList.

Lemma eqb_neq (a b : jsstring) : a <> b -> Js.eqb a b = false.
Proof.
  intros H. destruct (Js.eqb a b) eqn:E; [|reflexivity].
  apply JsFacts.eqb_eq in E. contradiction.
Qed.

Lemma contains_add_same (t : jsstring) (l : list jsstring) :
  contains t (add t l) = true.
Proof.
  unfold add. destruct (contains t l) eqn:E; [exact E|].
  unfold contains. rewrite existsb_app. simpl.
  now rewrite JsFacts.eqb_refl, orb_true_r.
Qed.

Lemma contains_add_other (t u : jsstring) (l : list jsstring) :
  t <> u -> contains t (add u l) = contains t l.
Proof.
  intros H. unfold add. destruct (contains u l); [reflexivity|].
  unfold contains. rewrite existsb_app. simpl.
  now rewrite (eqb_neq t u H), !orb_false_r.
Qed.

Lemma contains_remove_same (t : jsstring) (l : list jsstring) :
  contains t (remove t l) = false.
Proof.
  unfold contains, remove. induction l as [|c l IH]; simpl; [reflexivity|].
  destruct (Js.eqb t c) eqn:E; simpl; [exact IH|].
  now rewrite E, IH.
Qed.

Lemma contains_remove_other (t u : jsstring) (l : list jsstring) :
  t <> u -> contains t (remove u l) = contains t l.
Proof.
  intros H. unfold contains, remove.
  induction l as [|c l IH]; simpl; [reflexivity|].
  destruct (Js.eqb u c) eqn:E; simpl.
  - apply JsFacts.eqb_eq in E. subst c. now rewrite (eqb_neq t u H), IH.
  - now rewrite IH.
Qed.

End ClassListFacts.

(** ** Star buttons *)

Module StarsFacts.
Import Js Exn Json Stars.





(** *** More on what a handled answer does *)

(** The text that [on_data] writes into the count span. *)
Lemma on_data_span (data : json) (btn btn' : Button) (status : value) (text : jsstring) :
  get data (lit "status") = Ok status ->
  countSpan btn = Some text ->
  on_data data btn = Ok btn' ->
  countSpan btn' =
  Some (number_to_string
          (if strict_eq_string status (lit "starred")
           then add (parseInt text) (Int 1)
           else Math_max (Int 0) (sub (parseInt text) (Int 1)))).
Proof.
  unfold on_data. intros -> Ht. cbn [bind]. rewrite Ht.
  destruct (icon btn); [|discriminate].
  destruct (strict_eq_string status (lit "starred")); now intros [= <-].
Qed.

(** X8.  After a handled answer the icon carries exactly one of the two
    star classes, the filled one for ["starred"] and the outline for any
    other status, and the button is [active] exactly for ["starred"]; no
    other class of the icon or of the button is added or removed. *)
Theorem star_classes_follow_status
  (data : json) (btn btn' : Button) (status : value) (classes : list jsstring) :
  get data (lit "status") = Ok status ->
  icon btn = Some classes ->
  on_data data btn = Ok btn' ->
  let starred := strict_eq_string status (lit "starred") in
  exists classes',
    icon btn' = Some classes'
    /\ ClassList.contains (lit "bi-star-fill") classes' = starred
    /\ ClassList.contains (lit "bi-star") classes' = negb starred
    /\ ClassList.contains (lit "active") (classList btn') = starred
    /\ (forall t, t <> lit "bi-star" -> t <> lit "bi-star-fill" ->
                  ClassList.contains t classes' = ClassList.contains t classes)
    /\ (forall t, t <> lit "active" ->
                  ClassList.contains t (classList btn') =
                  ClassList.contains t (classList btn)).
Proof.
  unfold on_data. intros -> Hi. cbn [bind]. rewrite Hi.
  destruct (strict_eq_string status (lit "starred")); intros [= <-];
    cbn [icon classList]; eexists; (split; [reflexivity|]).
  - split; [apply ClassListFacts.contains_add_same|].
    split; [rewrite ClassListFacts.contains_add_other by discriminate;
            apply ClassListFacts.contains_remove_same|].
    split; [apply ClassListFacts.contains_add_same|].
    split; intros t; intros.
    + rewrite ClassListFacts.contains_add_other by assumption.
      now apply ClassListFacts.contains_remove_other.
    + now apply ClassListFacts.contains_add_other.
  - split; [rewrite ClassListFacts.contains_add_other by discriminate;
            apply ClassListFacts.contains_remove_same|].
    split; [apply ClassListFacts.contains_add_same|].
    split; [apply ClassListFacts.contains_remove_same|].
    split; intros t; intros.
    + rewrite ClassListFacts.contains_add_other by assumption.
      now apply ClassListFacts.contains_remove_other.
    + now apply ClassListFacts.contains_remove_other.
Qed.

Lemma star_classes_follow_status_witness :
  let btn := {| classList := [lit "btn"; lit "star-btn"];
                icon := Some [lit "bi-star"; lit "bi"];
                countSpan := None |} in
  let data := JObj [(lit "status", JStr (lit "starred"))] in
  exists btn',
    on_data data btn = Ok btn'
    /\ exists classes',
        icon btn' = Some classes'
        /\ ClassList.contains (lit "bi-star-fill") classes' = true
        /\ ClassList.contains (lit "bi-star") classes' = false
        /\ ClassList.contains (lit "active") (classList btn') = true.
Proof.
  intros btn data. eexists. split; [reflexivity|].
  destruct (star_classes_follow_status data btn _ (Of (JStr (lit "starred")))
              [lit "bi-star"; lit "bi"] eq_refl eq_refl eq_refl)
    as (classes' & H1 & H2 & H3 & H4 & _).
  exists classes'. auto.
Defined.

(** X9.  When the request is rejected, when the body is not JSON or is
    [null], or when the button has no icon, the button is left exactly as
    it was and one error goes to the console. *)
Theorem star_failure_keeps_button (o : option (option json)) (st : State) :
  o = None \/ o = Some None \/ o = Some (Some JNull) \/ icon (button st) = None ->
  button (on_settled o st) = button st
  /\ exists e, console (on_settled o st) = console st ++ [e].
Proof.
  intros H.
  destruct o as [[data|]|]; simpl; [|eauto|eauto].
  assert (exists e, on_data data (button st) = Throw e) as [e ->].
  { unfold on_data.
    destruct H as [H|[H|[H|H]]]; try discriminate.
    - injection H as ->. now exists TypeError.
    - destruct (get data (lit "status")) as [s|e]; cbn [bind]; [|now exists e].
      rewrite H. now exists TypeError. }
  simpl. eauto.
Qed.

Lemma star_failure_keeps_button_witness :
  let st := {| button := {| classList := [lit "star-btn"]; icon := None;
                            countSpan := Some (lit "3") |};
               console := [] |} in
  let o := Some (Some (JObj [(lit "status", JStr (lit "starred"))])) in
  button (on_settled o st) = button st
  /\ exists e, console (on_settled o st) = console st ++ [e].
Proof.
  intros st o.
  exact (star_failure_keeps_button o st (or_intror (or_intror (or_intror eq_refl)))).
Defined.



(** X11.  A count whose text does not start with a number is lost for
    good: the first handled answer writes [NaN] into the span, and [NaN]
    reads as not a number again, so every later answer writes [NaN]. *)
Theorem star_count_nan_stays (data : json) (btn btn' : Button) :
  shown_count btn = Some NaN ->
  on_data data btn = Ok btn' ->
  countSpan btn' = Some (lit "NaN") /\ shown_count btn' = Some NaN.
Proof.
  unfold shown_count. intros Hc Hd.
  destruct (countSpan btn) as [text|] eqn:Ht; [|discriminate].
  injection Hc as Hc.
  assert (exists status, get data (lit "status") = Ok status) as [status Hs].
  { unfold on_data in Hd. destruct (get data (lit "status")); [eauto|discriminate]. }
  rewrite (on_data_span _ _ _ _ _ Hs Ht Hd), Hc.
  destruct (strict_eq_string status (lit "starred")); split; reflexivity.
Qed.

Lemma star_count_nan_stays_witness :
  let btn := {| classList := [lit "star-btn"];
                icon := Some [lit "bi"; lit "bi-star"];
                countSpan := Some (lit "many") |} in
  let data := JObj [(lit "status", JStr (lit "starred"))] in
  shown_count btn = Some NaN
  /\ exists btn', on_data data btn = Ok btn'
                  /\ countSpan btn' = Some (lit "NaN")
                  /\ shown_count btn' = Some NaN.
Proof.
  intros btn data. split; [reflexivity|].
  eexists. split; [reflexivity|].
  exact (star_count_nan_stays data btn _ eq_refl eq_refl).
Defined.

End StarsFacts.

(** ** File size validation *)

Module FileSizeFacts.
Import Js FileSize.

(** A file is within the limit of [maxSizeMB] megabytes. *)
Definition within (maxSizeMB : Q) (f : File) : Prop :=
  (inject_Z (size f) <= maxSizeMB * 1024 * 1024)%Q.

Lemma loop_true (maxSizeMB maxSize : Q) (input : InputElement) (rest : list File) :
  returned (loop maxSizeMB maxSize input rest) = true <->
  Forall (fun f => (inject_Z (size f) <= maxSize)%Q) rest.
Proof.
  induction rest as [|f rest IH]; simpl.
  - split; [constructor | reflexivity].
  - destruct (Qle_bool (inject_Z (size f)) maxSize) eqn:E; simpl.
    + rewrite IH. apply Qle_bool_iff in E. split.
      * intros H. now constructor.
      * intros H. now apply Forall_inv_tail in H.
    + split; [discriminate|]. intros H. apply Forall_inv in H.
      apply Qle_bool_iff in H. congruence.
Qed.

Lemma loop_input (maxSizeMB maxSize : Q) (input : InputElement) (rest : list File) :
  input_after (loop maxSizeMB maxSize input rest) =
  if returned (loop maxSizeMB maxSize input rest)
  then input
  else {| files := files input; value := [] |}.
Proof.
  induction rest as [|f rest IH]; simpl; [reflexivity|].
  destruct (Qle_bool (inject_Z (size f)) maxSize); simpl; [apply IH | reflexivity].
Qed.

(** C10.  [validateFileSize] returns [true] exactly when every file of
    the input is at most [maxSizeMB * 1024 * 1024] bytes long; it then
    leaves the input as it was.  Otherwise it returns [false] with
    [input.value] set to the empty string. *)
Theorem validateFileSize_correct (input : InputElement) (maxSizeMB : Q) :
  let out := validateFileSize input maxSizeMB in
  (returned out = true <-> Forall (within maxSizeMB) (files input))
  /\ (returned out = true /\ input_after out = input
      \/ returned out = false /\ Exists (fun f => ~ within maxSizeMB f) (files input)
         /\ value (input_after out) = []).
Proof.
  intros out. subst out. unfold validateFileSize.
  pose proof (loop_true maxSizeMB (maxSizeMB * 1024 * 1024) input (files input)) as Ht.
  pose proof (loop_input maxSizeMB (maxSizeMB * 1024 * 1024) input (files input)) as Hi.
  split; [exact Ht|].
  destruct (returned (loop maxSizeMB (maxSizeMB * 1024 * 1024) input (files input))).
  - left. split; [reflexivity | exact Hi].
  - right. split; [reflexivity|]. split; [|now rewrite Hi].
    apply neg_Forall_Exists_neg.
    + intros f. unfold within.
      destruct (Qlt_le_dec (maxSizeMB * 1024 * 1024) (inject_Z (size f))) as [Hlt|Hle];
        [right | left; exact Hle].
      now apply Qlt_not_le.
    + intros H. apply Ht in H. discriminate.
Qed.

(** *** Which file is reported, and how the limit matters *)



(** X13.  Raising the limit never turns an accepted input into a refused
    one. *)
Theorem validateFileSize_monotone (input : InputElement) (m m' : Q) :
  (m <= m')%Q ->
  returned (validateFileSize input m) = true ->
  returned (validateFileSize input m') = true.
Proof.
  unfold validateFileSize. intros Hm H.
  apply loop_true in H. apply loop_true.
  eapply List.Forall_impl; [|exact H]. simpl. intros f Hf.
  eapply Qle_trans; [exact Hf|].
  repeat (apply Qmult_le_compat_r; [|discriminate]). exact Hm.
Qed.

Lemma validateFileSize_monotone_witness :
  let input := {| files := [{| name := lit "notes.pdf"; size := 3145728 |}];
                  value := lit "notes.pdf" |} in
  (3 <= 5)%Q
  /\ returned (validateFileSize input 3) = true
  /\ returned (validateFileSize input 5) = true.
Proof.
  intros input.
  assert (3 <= 5)%Q as Hm by discriminate.
  split; [exact Hm|]. split; [reflexivity|].
  exact (validateFileSize_monotone input 3 5 Hm eq_refl).
Defined.

End FileSizeFacts.

(** ** Search suggestions *)

Module SearchFacts.
Import Js Exn Json Search.

(** *** The words of the specification *)

(** A suggestion as the lookup endpoint describes it. *)
Record Suggestion : Type := { name : jsstring; url : jsstring; type : jsstring }.

Inductive Icon : Type := FolderIcon | FileIcon.

(** An activatable entry of the panel: a link with an icon and a label. *)
Record Entry : Type := { href : jsstring; icon : Icon; label : jsstring }.

Definition entry_of (s : Suggestion) : Entry :=
  {| href := url s;
     icon := if Js.eqb (type s) (lit "folder") then FolderIcon else FileIcon;
     label := name s |}.

Definition icon_class (i : Icon) : jsstring :=
  match i with
  | FolderIcon => lit "bi-folder"
  | FileIcon => lit "bi-file-earmark"
  end.

(** The anchor element that shows an entry. *)
Definition entry_markup (e : Entry) : jsstring :=
  nl ++ spaces 24 ++ lit "<a href=" ++ dquote ++ href e ++ dquote
  ++ lit " class=" ++ dquote ++ lit "suggestion-item" ++ dquote ++ lit ">"
  ++ nl ++ spaces 28 ++ lit "<i class=" ++ dquote ++ lit "bi "
  ++ icon_class (icon e) ++ lit " me-2" ++ dquote ++ lit "></i>"
  ++ nl ++ spaces 28 ++ label e
  ++ nl ++ spaces 24 ++ lit "</a>"
  ++ nl ++ spaces 20.

(** A parsed item carries the three strings of a suggestion. *)
Definition represents (item : json) (s : Suggestion) : Prop :=
  get item (lit "name") = Ok (Of (JStr (name s)))
  /\ get item (lit "url") = Ok (Of (JStr (url s)))
  /\ get item (lit "type") = Ok (Of (JStr (type s))).

Definition to_json (s : Suggestion) : json :=
  JObj [(lit "name", JStr (name s)); (lit "url", JStr (url s));
        (lit "type", JStr (type s))].

(** The controller's invariant on its debounce timer: whatever is pending
    is the timer that [timeout] names. *)
Definition wf (st : State) : Prop :=
  Forall (fun x => timeout st = Some (Timers.tid x)) (Timers.queue (timers st)).

(** Two timed inputs are part of one burst when the second comes less than
    300ms after the first. *)
Fixpoint burst (prev : Z) (inputs : list (Z * jsstring)) : Prop :=
  match inputs with
  | [] => True
  | (t, _) :: rest => prev <= t < prev + 300 /\ burst t rest
  end.

Definition typing (inputs : list (Z * jsstring)) : list (Z * Event) :=
  map (fun tv => (fst tv, Input (snd tv))) inputs.

(** *** Sample data *)

Definition physics : Suggestion :=
  {| name := lit "Physics 101"; url := lit "/folder/5"; type := lit "folder" |}.

Definition notes : Suggestion :=
  {| name := lit "Notes"; url := lit "/file/9"; type := lit "file" |}.

(** Two lookups in flight, for [ph] (request 0) and then for [phy]
    (request 1). *)
Definition two_in_flight : State :=
  run [(0, Input (lit "ph")); (400, Input (lit "phy")); (800, Click true false)]
      (initSearchSuggestions 0).

(** The second is answered first, with [physics]. *)
Definition second_answered_first : State :=
  arrive 1 (Responded 200 (Some (JArr [to_json physics]))) two_in_flight.

(** *** Responses *)

Lemma arrive_inflight (i : nat) (o : FetchOutcome) (st : State) :
  is_inflight i st = true ->
  arrive i o st =
  on_settled o
    {| suggestionsContainer := suggestionsContainer st; timeout := timeout st;
       timers := timers st; issued := issued st;
       inflight := List.filter (fun r => negb (Nat.eqb (rid r) i)) (inflight st);
       console := console st |}.
Proof. unfold arrive. now intros ->. Qed.

(** The container after an answer depends on the answer and on the
    container before, on nothing else. *)
Lemma arrive_container (i : nat) (o : FetchOutcome) (st : State) :
  is_inflight i st = true ->
  suggestionsContainer (arrive i o st) =
  match o with
  | Responded _ (Some data) =>
    match on_data data (suggestionsContainer st) with
    | Ok c => c
    | Throw _ => suggestionsContainer st
    end
  | _ => suggestionsContainer st
  end.
Proof.
  intros H. rewrite arrive_inflight by exact H.
  destruct o as [|status [data|]]; simpl; try reflexivity.
  destruct (on_data data (suggestionsContainer st)); reflexivity.
Qed.

Lemma item_markup_represents (item : json) (s : Suggestion) :
  represents item s -> item_markup item = Ok (entry_markup (entry_of s)).
Proof.
  intros (Hn & Hu & Ht). unfold item_markup. rewrite Hu, Ht, Hn. simpl.
  unfold entry_markup, entry_of. simpl.
  destruct (Js.eqb (type s) (lit "folder")); reflexivity.
Qed.

Lemma mapM_item_markup (items : list json) (ss : list Suggestion) :
  Forall2 represents items ss ->
  mapM item_markup items = Ok (map entry_markup (map entry_of ss)).
Proof.
  induction 1 as [|item s items ss Hr _ IH]; simpl; [reflexivity|].
  now rewrite (item_markup_represents item s Hr), IH.
Qed.

Lemma to_json_represents (s : Suggestion) : represents (to_json s) s.
Proof.
  unfold represents, to_json, get, member.
  repeat split; reflexivity.
Qed.

Lemma on_data_empty (c : Container) :
  on_data (JArr []) c = Ok {| innerHTML := innerHTML c; display := lit "none" |}.
Proof. reflexivity. Qed.

Lemma on_data_nonempty (items : list json) (c : Container) :
  items <> [] ->
  on_data (JArr items) c =
  do parts <- mapM item_markup items;
  Ok {| innerHTML := concat parts; display := lit "block" |}.
Proof.
  intros H. destruct items as [|x items]; [congruence|]. reflexivity.
Qed.

(** An empty array hides the panel and leaves its markup as it was. *)
Lemma empty_response_hides (i : nat) (status : Z) (st : State) :
  is_inflight i st = true ->
  suggestionsContainer (arrive i (Responded status (Some (JArr []))) st) =
  {| innerHTML := innerHTML (suggestionsContainer st); display := lit "none" |}.
Proof. intros H. now rewrite arrive_container. Qed.

(** C5.  The specification asks for a hidden and empty panel; the code
    hides the panel only.  After [physics] has been shown, an empty answer leaves the
    panel hidden with the markup of [physics] still in it, where the
    branch for a short query, on the same panel, would have emptied it. *)
Theorem empty_response_keeps_content :
  let st := second_answered_first in
  let c := suggestionsContainer (arrive 0 (Responded 200 (Some (JArr []))) st) in
  is_inflight 0 st = true
  /\ display c = lit "none"
  /\ innerHTML c = concat [entry_markup (entry_of physics)]
  /\ innerHTML c <> []
  /\ innerHTML (suggestionsContainer (on_input [] st)) = [].
Proof.
  repeat split; try reflexivity. vm_compute. discriminate.
Qed.




Lemma is_inflight_arrive_other (i j : nat) (o : FetchOutcome) (st : State) :
  i <> j ->
  is_inflight i st = true ->
  is_inflight i (arrive j o st) = true.
Proof.
  intros Hij Hi. unfold arrive.
  destruct (is_inflight j st); [|exact Hi].
  assert (forall s, inflight (on_settled o s) = inflight s) as Hs.
  { intros s. destruct o as [|status [data|]]; simpl; try reflexivity.
    destruct (on_data data (suggestionsContainer s)); reflexivity. }
  unfold is_inflight in *. rewrite Hs. simpl.
  apply existsb_exists in Hi as (r & Hr & Hri). apply Nat.eqb_eq in Hri.
  apply existsb_exists. exists r. split; [|now apply Nat.eqb_eq].
  apply filter_In. split; [exact Hr|].
  apply negb_true_iff, Nat.eqb_neq. congruence.
Qed.

(** C1 (as the code has it).  Answers are rendered in the order they
    arrive; the handler compares no sequence number.  Let request [i1] be
    issued before request [i2], both in flight.  After the answer to [i2],
    a late answer to [i1] that carries suggestions is rendered over it:
    the panel shows the entries of [i1]'s answer (an empty answer hides
    the panel). *)
Theorem late_response_renders
  (i1 i2 : nat) (o2 : FetchOutcome) (status : Z)
  (items : list json) (ss : list Suggestion) (st : State) :
  (i1 < i2)%nat ->
  is_inflight i1 st = true ->
  is_inflight i2 st = true ->
  Forall2 represents items ss ->
  let st2 := arrive i2 o2 st in
  let st1 := arrive i1 (Responded status (Some (JArr items))) st2 in
  suggestionsContainer st1 =
  match ss with
  | [] => {| innerHTML := innerHTML (suggestionsContainer st2);
             display := lit "none" |}
  | _ => {| innerHTML := concat (map entry_markup (map entry_of ss));
            display := lit "block" |}
  end.
Proof.
  intros Hlt H1 H2 Hr st2 st1. subst st1.
  assert (is_inflight i1 st2 = true) as H1'
    by (apply is_inflight_arrive_other; [lia | exact H1]).
  rewrite arrive_container by exact H1'.
  destruct Hr as [|item s items ss Hr Hrs]; [reflexivity|].
  rewrite on_data_nonempty by discriminate.
  now rewrite (mapM_item_markup (item :: items) (s :: ss)) by (constructor; assumption).
Qed.

Lemma late_response_renders_witness :
  (0 < 1)%nat
  /\ is_inflight 0 two_in_flight = true
  /\ is_inflight 1 two_in_flight = true
  /\ suggestionsContainer
       (arrive 0 (Responded 200 (Some (JArr [to_json notes])))
          second_answered_first) =
     {| innerHTML := concat (map entry_markup (map entry_of [notes]));
        display := lit "block" |}.
Proof.
  assert (Forall2 represents [to_json notes] [notes]) as Hr
    by (constructor; [apply to_json_represents | constructor]).
  split; [lia|]. split; [reflexivity|]. split; [reflexivity|].
  exact (late_response_renders 0 1
           (Responded 200 (Some (JArr [to_json physics]))) 200
           [to_json notes] [notes] two_in_flight
           (Nat.lt_0_succ 0) eq_refl eq_refl Hr).
Defined.

(** C1 as stated fails: request 0 is issued before request 1, the answer
    to request 1 is rendered, and the late answer to request 0 replaces
    it. *)
Lemma stale_response_overwrites :
  let after_r2 := second_answered_first in
  let after_r1 :=
    arrive 0 (Responded 200 (Some (JArr [to_json notes]))) after_r2 in
  map rid (issued two_in_flight) = [0%nat; 1%nat]
  /\ suggestionsContainer after_r2 =
     {| innerHTML := concat [entry_markup (entry_of physics)];
        display := lit "block" |}
  /\ suggestionsContainer after_r1 =
     {| innerHTML := concat [entry_markup (entry_of notes)];
        display := lit "block" |}
  /\ suggestionsContainer after_r1 <> suggestionsContainer after_r2.
Proof.
  repeat split; try reflexivity. vm_compute. discriminate.
Qed.

(** C4 (as the code has it).  When [fetch] rejects, or when the body of
    the response is not JSON, the error is logged, the panel is left as it
    was and nothing is fetched or scheduled.  The status of a response is
    never read: the same body is handled the same way under any status. *)
Theorem failed_lookup_leaves_panel (i : nat) (o : FetchOutcome) (st : State) :
  is_inflight i st = true ->
  o = Rejected \/ (exists status, o = Responded status None) ->
  let st' := arrive i o st in
  (suggestionsContainer st' = suggestionsContainer st
   /\ (exists e, console st' = console st ++ [e])
   /\ issued st' = issued st
   /\ timers st' = timers st
   /\ timeout st' = timeout st)
  /\ (forall s1 s2 body,
        arrive i (Responded s1 body) st = arrive i (Responded s2 body) st).
Proof.
  intros Hi Ho st'. subst st'. split.
  - rewrite arrive_inflight by exact Hi.
    destruct Ho as [->|[status ->]]; simpl; repeat split; eauto.
  - intros s1 s2 body. now rewrite !arrive_inflight by exact Hi.
Qed.

Lemma failed_lookup_leaves_panel_witness :
  is_inflight 0 second_answered_first = true
  /\ suggestionsContainer (arrive 0 (Responded 502 None) second_answered_first) =
     suggestionsContainer second_answered_first
  /\ console (arrive 0 (Responded 502 None) second_answered_first) = [SyntaxError].
Proof.
  destruct (failed_lookup_leaves_panel 0 (Responded 502 None)
              second_answered_first eq_refl
              (or_intror (ex_intro _ 502 eq_refl))) as [(Hc & _) _].
  split; [reflexivity|]. split; [exact Hc | reflexivity].
Defined.

(** C4 as stated fails: a response with status 500 whose body is a JSON
    array is rendered like any other; the panel changes and nothing is
    logged. *)
Lemma server_error_body_is_rendered :
  let st := second_answered_first in
  let st' := arrive 0 (Responded 500 (Some (JArr [to_json notes]))) st in
  is_inflight 0 st = true
  /\ suggestionsContainer st' <> suggestionsContainer st
  /\ console st' = console st.
Proof.
  repeat split; try reflexivity. vm_compute. discriminate.
Qed.

(** *** The debounce timer *)

Lemma clearTimeout_named (i : nat) (T : Timers.t Callback) :
  Forall (fun x => Some i <> Some (Timers.tid x))
         (Timers.queue (Timers.clearTimeout (Some i) T)).
Proof.
  simpl. apply List.Forall_forall. intros x Hx.
  apply filter_In in Hx as [_ Hx].
  apply negb_true_iff, Nat.eqb_neq in Hx. congruence.
Qed.

Lemma clearTimeout_wf (st : State) :
  wf st -> Timers.queue (Timers.clearTimeout (timeout st) (timers st)) = [].
Proof.
  unfold wf. destruct (timeout st) as [i|]; simpl; intros H.
  - induction H as [|x q Hx _ IH]; simpl; [reflexivity|].
    injection Hx as ->. now rewrite Nat.eqb_refl.
  - destruct H as [|x q Hx _]; [reflexivity | discriminate].
Qed.

Lemma advance_idle (limit : Z) (st : State) :
  Timers.queue (timers st) = [] ->
  advance limit st = with_timers (timeout st) (Timers.tick limit (timers st)) st.
Proof. unfold advance. now intros ->. Qed.

(** C3.  An input whose trimmed text is shorter than two code units
    empties and hides the panel, fetches nothing and removes the timer
    that [timeout] names; with the controller's invariant no timer is
    left at all, so nothing is fetched later either. *)
Theorem short_query_clears (value : jsstring) (st : State) :
  (length (trim value) < 2)%nat ->
  let st' := on_input value st in
  suggestionsContainer st' = {| innerHTML := []; display := lit "none" |}
  /\ issued st' = issued st
  /\ inflight st' = inflight st
  /\ Forall (fun x => timeout st <> Some (Timers.tid x))
            (Timers.queue (timers st'))
  /\ (wf st ->
      Timers.queue (timers st') = []
      /\ forall t, issued (advance t st') = issued st).
Proof.
  intros Hlen st'. subst st'. unfold on_input.
  apply Nat.ltb_lt in Hlen. rewrite Hlen.
  do 3 (split; [reflexivity|]). split.
  - cbn [timers with_container with_timers].
    destruct (timeout st) as [i|]; [apply clearTimeout_named|].
    apply List.Forall_forall. discriminate.
  - intros Hwf. split.
    + cbn [timers with_container with_timers]. now apply clearTimeout_wf.
    + intros t. rewrite advance_idle; [reflexivity|].
      cbn [timers with_container with_timers]. now apply clearTimeout_wf.
Qed.

(** A timer is pending for [ph]; the text becomes [ p ]. *)
Lemma short_query_clears_witness :
  let st := run [(0, Input (lit "ph"))] (initSearchSuggestions 0) in
  let st' := on_input (lit " p ") st in
  (length (trim (lit " p ")) < 2)%nat
  /\ length (Timers.queue (timers st)) = 1%nat
  /\ suggestionsContainer st' = {| innerHTML := []; display := lit "none" |}
  /\ Timers.queue (timers st') = []
  /\ issued (advance 1000 st') = [].
Proof.
  intros st st'.
  assert (length (trim (lit " p ")) < 2)%nat as Hlen by (vm_compute; lia).
  assert (wf st) as Hwf by (repeat constructor).
  destruct (short_query_clears (lit " p ") st Hlen) as (Hc & _ & _ & _ & Hq).
  destruct (Hq Hwf) as [Hnil Hlater].
  split; [exact Hlen|]. split; [reflexivity|]. split; [exact Hc|].
  split; [exact Hnil | exact (Hlater 1000)].
Defined.

(** *** Running the timers *)

Definition sorted (st : State) : Prop :=
  TimersFacts.sorted (Timers.queue (timers st)).

Lemma fire_queue (cb : Callback) (st : State) :
  timers (fire cb st) = timers st.
Proof. destruct cb as [query]. simpl. now destruct (encodeURIComponent query). Qed.

(** With the queue in due order, the fuel that [advance] gives is enough:
    when the run stops, no timer that is left is due. *)
Lemma run_timers_complete (limit : Z) (fuel : nat) :
  forall st,
    (length (Timers.queue (timers st)) <= fuel)%nat ->
    sorted st ->
    sorted (run_timers fuel limit st)
    /\ Forall (fun y => limit < Timers.due y)
              (Timers.queue (timers (run_timers fuel limit st))).
Proof.
  unfold sorted. induction fuel as [|fuel IH]; intros st Hlen Hs.
  - simpl. split; [exact Hs|].
    destruct (Timers.queue (timers st)); [constructor | simpl in Hlen; lia].
  - simpl. unfold Timers.pop.
    destruct (Timers.queue (timers st)) as [|x q] eqn:Eq.
    + rewrite Eq. split; [exact Hs | constructor].
    + destruct (Z.leb_spec (Timers.due x) limit) as [Hdue|Hdue].
      * apply IH; rewrite fire_queue; simpl.
        -- simpl in Hlen. lia.
        -- now apply TimersFacts.sorted_tail in Hs.
      * rewrite Eq. split; [exact Hs|].
        now apply TimersFacts.sorted_not_due.
Qed.

Lemma advance_complete (limit : Z) (st : State) :
  sorted st ->
  sorted (advance limit st)
  /\ Forall (fun y => limit < Timers.due y)
            (Timers.queue (timers (advance limit st))).
Proof.
  intros Hs. unfold advance.
  exact (run_timers_complete limit _ st (Nat.le_refl _) Hs).
Qed.

(** Every handler keeps the queue in due order. *)
Lemma handle_sorted (e : Event) (st : State) :
  sorted st -> sorted (handle e st).
Proof.
  unfold sorted. intros Hs. destruct e as [value|a b|i o]; simpl.
  - unfold on_input.
    pose proof (TimersFacts.clearTimeout_sorted _ (timeout st) (timers st) Hs) as Hc.
    destruct (length (trim value) <? 2)%nat; simpl; [exact Hc|].
    now apply TimersFacts.enqueue_sorted.
  - unfold on_click. now destruct (negb a && negb b).
  - unfold arrive. destruct (is_inflight i st); [|exact Hs].
    destruct o as [|status [data|]]; simpl; try exact Hs.
    now destruct (on_data data (suggestionsContainer st)).
Qed.

Lemma run_sorted (trace : list (Z * Event)) :
  forall st, sorted st -> sorted (run trace st).
Proof.
  induction trace as [|te trace IH]; intros st Hs; [exact Hs|].
  apply IH. apply handle_sorted. now apply advance_complete.
Qed.

(** *** Bursts of input *)

Lemma fire_timers (cb : Callback) (st : State) :
  timers (fire cb st) = timers st /\ timeout (fire cb st) = timeout st.
Proof.
  destruct cb as [query]. simpl.
  destruct (encodeURIComponent query); split; reflexivity.
Qed.

(** Running due timers only shortens the queue, keeps [timeout] and does
    not move the clock past the limit. *)
Lemma run_timers_frame (P : Timers.timer Callback -> Prop) (limit : Z) (fuel : nat) :
  forall st,
    Forall P (Timers.queue (timers st)) ->
    Timers.now (timers st) <= limit ->
    let st' := run_timers fuel limit st in
    Forall P (Timers.queue (timers st'))
    /\ Timers.now (timers st') <= limit
    /\ timeout st' = timeout st.
Proof.
  induction fuel as [|fuel IH]; intros st HP Hnow; simpl; [auto|].
  unfold Timers.pop.
  destruct (Timers.queue (timers st)) as [|x q] eqn:Eq; [rewrite Eq; auto|].
  destruct (Z.leb_spec (Timers.due x) limit) as [Hdue|Hdue]; [|rewrite Eq; auto].
  set (st1 := fire _ _).
  destruct (fire_timers (Timers.callback x)
              (with_timers (timeout st)
                 {| Timers.now := Z.max (Timers.now (timers st)) (Timers.due x);
                    Timers.nextId := Timers.nextId (timers st);
                    Timers.queue := q |} st)) as [HT Ht].
  fold st1 in HT, Ht. simpl in HT, Ht.
  destruct (IH st1) as (H1 & H2 & H3).
  - rewrite HT. simpl. now apply Forall_inv_tail in HP.
  - rewrite HT. simpl. lia.
  - repeat split; [exact H1 | exact H2 | congruence].
Qed.

Lemma advance_wf (limit : Z) (st : State) :
  wf st ->
  Timers.now (timers st) <= limit ->
  wf (advance limit st) /\ Timers.now (timers (advance limit st)) = limit.
Proof.
  intros Hwf Hnow. unfold wf in *.
  destruct (run_timers_frame (fun x => timeout st = Some (Timers.tid x)) limit
              (length (Timers.queue (timers st))) st Hwf Hnow) as (H1 & H2 & H3).
  unfold advance. simpl. split; [|lia].
  rewrite H3. exact H1.
Qed.

(** The controller just after the input [(t, v)]: either the text was too
    short and nothing is pending, or one timer is pending, due 300ms
    later, for the trimmed text. *)
Definition settled (t : Z) (v : jsstring) (sent : list Request) (st : State) : Prop :=
  Timers.now (timers st) = t
  /\ issued st = sent
  /\ if (length (trim v) <? 2)%nat
     then Timers.queue (timers st) = []
     else exists id,
         timeout st = Some id
         /\ Timers.queue (timers st) =
            [{| Timers.tid := id; Timers.due := t + 300;
                Timers.callback := Lookup (trim v) |}].

Lemma on_input_settled (v : jsstring) (st : State) :
  Timers.queue (Timers.clearTimeout (timeout st) (timers st)) = [] ->
  settled (Timers.now (timers st)) v (issued st) (on_input v st).
Proof.
  intros Hq. unfold settled, on_input.
  assert (Timers.now (Timers.clearTimeout (timeout st) (timers st)) =
          Timers.now (timers st)) as Hnow
    by (destruct (timeout st); reflexivity).
  destruct (length (trim v) <? 2)%nat; simpl.
  - auto.
  - rewrite Hq, Hnow. repeat split. eexists. split; reflexivity.
Qed.

Lemma settled_clear (t : Z) (v : jsstring) (sent : list Request) (st : State) :
  settled t v sent st -> wf st.
Proof.
  intros (_ & _ & H). unfold wf.
  destruct (length (trim v) <? 2)%nat.
  - rewrite H. constructor.
  - destruct H as (id & Hid & ->). constructor; [exact Hid | constructor].
Qed.

(** The next input of a burst comes before the pending timer is due: the
    timer is replaced and nothing is fetched. *)
Lemma settled_step (t t' : Z) (v v' : jsstring) (sent : list Request) (st : State) :
  settled t v sent st ->
  t <= t' < t + 300 ->
  settled t' v' sent (step st (t', Input v')).
Proof.
  intros Hs Ht. pose proof (settled_clear _ _ _ _ Hs) as Hwf.
  destruct Hs as (Hnow & Hsent & Hq).
  assert (advance t' st = with_timers (timeout st) (Timers.tick t' (timers st)) st) as Ha.
  { unfold advance. destruct (length (trim v) <? 2)%nat.
    - now rewrite Hq.
    - destruct Hq as (id & _ & Hq). rewrite Hq. simpl. unfold Timers.pop.
      rewrite Hq. simpl.
      destruct (Z.leb_spec (t + 300) t'); [lia | reflexivity]. }
  unfold step. cbn [fst snd handle]. rewrite Ha.
  set (st1 := with_timers _ _ st).
  assert (Timers.now (timers st1) = t') as Hnow1 by (simpl; lia).
  pose proof (on_input_settled v' st1 (clearTimeout_wf st1 Hwf)) as H.
  rewrite Hnow1 in H. change (issued st1) with (issued st) in H.
  now rewrite Hsent in H.
Qed.

Lemma last_cons {A : Type} (l : list A) :
  forall a d, List.last (a :: l) d = List.last l a.
Proof.
  induction l as [|b l IH]; intros a d; [reflexivity|].
  change (List.last (a :: b :: l) d) with (List.last (b :: l) d).
  now rewrite !IH.
Qed.

Lemma settled_run (rest : list (Z * jsstring)) :
  forall t v sent st,
    settled t v sent st ->
    burst t rest ->
    settled (fst (List.last rest (t, v))) (snd (List.last rest (t, v))) sent
            (run (typing rest) st).
Proof.
  induction rest as [|[t' v'] rest IH]; intros t v sent st Hs Hb; [exact Hs|].
  destruct Hb as [Ht Hb].
  pose proof (IH t' v' sent _ (settled_step t t' v v' sent st Hs Ht) Hb) as H.
  rewrite last_cons. exact H.
Qed.

(** After the quiet period the pending timer, if any, fetches once. *)
Lemma settled_quiet (t limit : Z) (v : jsstring) (sent : list Request) (st : State) :
  settled t v sent st ->
  t + 300 <= limit ->
  issued (advance limit st) =
  sent ++
  (if (length (trim v) <? 2)%nat then []
   else match encodeURIComponent (trim v) with
        | Some q => [{| rid := length sent;
                        Search.url := lit "/api/search/suggest?q=" ++ q |}]
        | None => []
        end).
Proof.
  intros (Hnow & Hsent & Hq) Ht. unfold advance.
  destruct (length (trim v) <? 2)%nat.
  - rewrite Hq. simpl. now rewrite app_nil_r.
  - destruct Hq as (id & _ & Hq). rewrite Hq. simpl. unfold Timers.pop.
    rewrite Hq. simpl.
    destruct (Z.leb_spec (t + 300) limit); [|lia]. simpl.
    destruct (encodeURIComponent (trim v)); simpl; rewrite Hsent;
      [reflexivity | now rewrite app_nil_r].
Qed.

(** C2 (as the code has it).  Take a burst of inputs, each less than
    300ms after the one before, and let 300ms pass after the last.  No
    request is made for an intermediate text.  If the last text, trimmed,
    has at least two code units (and is well-formed UTF-16, so that it can
    be encoded), exactly one request is made, for that trimmed text; if it
    is shorter, none is made. *)
Theorem burst_fetches_last_query
  (st : State) (t1 : Z) (v1 : jsstring) (rest : list (Z * jsstring)) (limit : Z) :
  wf st ->
  Timers.now (timers st) <= t1 ->
  burst t1 rest ->
  fst (List.last rest (t1, v1)) + 300 <= limit ->
  let final := trim (snd (List.last rest (t1, v1))) in
  let before := issued (advance t1 st) in
  issued (advance limit (run (typing ((t1, v1) :: rest)) st)) =
  before ++
  (if (length final <? 2)%nat then []
   else match encodeURIComponent final with
        | Some q => [{| rid := length before;
                        Search.url := lit "/api/search/suggest?q=" ++ q |}]
        | None => []
        end).
Proof.
  intros Hwf Hnow Hb Hl final before. subst final before.
  destruct (advance_wf t1 st Hwf Hnow) as [Hwf1 Hnow1].
  pose proof (on_input_settled v1 (advance t1 st)
                (clearTimeout_wf _ Hwf1)) as Hs.
  rewrite Hnow1 in Hs.
  change (run (typing ((t1, v1) :: rest)) st)
    with (run (typing rest) (on_input v1 (advance t1 st))).
  apply (settled_quiet _ limit _ _ _ (settled_run rest _ _ _ _ Hs Hb) Hl).
Qed.

(** Typing [p], [ph], [phy ] within a quarter of a second fetches once,
    for [phy]. *)
Lemma burst_fetches_last_query_witness :
  let inputs := [(0, lit "p"); (100, lit "ph"); (250, lit "phy ")] in
  wf (initSearchSuggestions 0)
  /\ burst 0 (tl inputs)
  /\ issued (advance 550 (run (typing inputs) (initSearchSuggestions 0))) =
     [{| rid := 0; Search.url := lit "/api/search/suggest?q=phy" |}].
Proof.
  intros inputs.
  assert (wf (initSearchSuggestions 0)) as Hwf by constructor.
  assert (burst 0 (tl inputs)) as Hb by (simpl; lia).
  split; [exact Hwf|]. split; [exact Hb|].
  refine (burst_fetches_last_query (initSearchSuggestions 0) 0 (lit "p")
            (tl inputs) 550 Hwf _ Hb _); simpl; lia.
Defined.

(** C2 as stated fails: a burst that ends on a text too short fetches
    nothing, then or later. *)
Lemma burst_ending_short_fetches_nothing :
  let inputs := [(0, lit "ph"); (100, lit "p")] in
  let st := advance 1000 (run (typing inputs) (initSearchSuggestions 0)) in
  burst 0 (tl inputs)
  /\ issued st = []
  /\ Timers.queue (timers st) = [].
Proof. simpl. repeat split; lia. Qed.

(** *** What holds in every state the controller reaches *)

(** The texts typed in a trace. *)
Fixpoint typed (trace : list (Z * Event)) : list jsstring :=
  match trace with
  | [] => []
  | (_, Input value) :: rest => value :: typed rest
  | _ :: rest => typed rest
  end.

(** A pending timer looks up the trimmed form of a typed text of at least
    two code units. *)
Definition from_typed (V : list jsstring) (x : Timers.timer Callback) : Prop :=
  exists v, In v V /\ (2 <= length (trim v))%nat
            /\ Timers.callback x = Lookup (trim v).

(** A request asks for the trimmed form of such a text. *)
Definition asks_typed (V : list jsstring) (r : Request) : Prop :=
  exists v e, In v V /\ (2 <= length (trim v))%nat
              /\ encodeURIComponent (trim v) = Some e
              /\ Search.url r = lit "/api/search/suggest?q=" ++ e.

Definition provenance (V : list jsstring) (st : State) : Prop :=
  Forall (from_typed V) (Timers.queue (timers st))
  /\ Forall (asks_typed V) (issued st).

Lemma provenance_more (V W : list jsstring) (st : State) :
  (forall v, In v V -> In v W) -> provenance V st -> provenance W st.
Proof.
  intros HVW [Hq Hi]. split.
  - eapply List.Forall_impl; [|exact Hq].
    intros x (v & Hv & H). exists v. auto.
  - eapply List.Forall_impl; [|exact Hi].
    intros r (v & e & Hv & H). exists v, e. auto.
Qed.

Lemma run_timers_provenance (V : list jsstring) (limit : Z) (fuel : nat) :
  forall st, provenance V st -> provenance V (run_timers fuel limit st).
Proof.
  induction fuel as [|fuel IH]; intros st [Hq Hi]; [now split|].
  simpl. unfold Timers.pop.
  destruct (Timers.queue (timers st)) as [|x q] eqn:Eq; [now split; rewrite ?Eq|].
  destruct (Timers.due x <=? limit); [|now split; rewrite ?Eq].
  apply IH.
  pose proof (Forall_inv Hq) as (v & Hv & Hlen & Hcb).
  apply Forall_inv_tail in Hq.
  rewrite Hcb. cbn [fire].
  destruct (encodeURIComponent (trim v)) as [e|] eqn:Ee; split; simpl;
    try exact Hq; try exact Hi.
  apply Forall_app. split; [exact Hi|].
  constructor; [|constructor]. exists v, e. auto.
Qed.

Lemma handle_provenance (V : list jsstring) (e : Event) (st : State) :
  provenance V st ->
  provenance (V ++ typed [(0, e)]) (handle e st).
Proof.
  intros H.
  assert (provenance (V ++ typed [(0, e)]) st) as [Hq Hi]
    by (eapply provenance_more; [|exact H]; intros v Hv; apply in_or_app; now left).
  destruct e as [value|a b|i o]; simpl.
  - unfold on_input.
    assert (Forall (from_typed (V ++ [value]))
                   (Timers.queue (Timers.clearTimeout (timeout st) (timers st))))
      as Hc.
    { destruct (timeout st); simpl; [|exact Hq].
      apply List.Forall_forall. intros x Hx. apply filter_In in Hx as [Hx _].
      simpl in Hq. rewrite List.Forall_forall in Hq. now apply Hq. }
    destruct (Nat.ltb_spec (length (trim value)) 2) as [Hlt|Hge]; split; simpl;
      try exact Hc; try exact Hi.
    apply List.Forall_forall. intros x Hx.
    apply TimersFacts.enqueue_In in Hx as [->|Hx].
    + exists value. split; [apply in_or_app; right; now left|]. now split.
    + rewrite List.Forall_forall in Hc. now apply Hc.
  - unfold on_click. destruct (negb a && negb b); now split.
  - unfold arrive. destruct (is_inflight i st); [|now split].
    destruct o as [|status [data|]]; simpl; try now split.
    destruct (on_data data (suggestionsContainer st)); now split.
Qed.

Lemma run_provenance (trace : list (Z * Event)) :
  forall V st, provenance V st -> provenance (V ++ typed trace) (run trace st).
Proof.
  induction trace as [|[t e] trace IH]; intros V st H.
  - now rewrite app_nil_r.
  - cbn [run fold_left]. fold (run trace (step st (t, e))).
    assert (typed ((t, e) :: trace) = typed [(0, e)] ++ typed trace) as ->
      by (destruct e; reflexivity).
    rewrite app_assoc. apply IH.
    unfold step. cbn [fst snd]. apply handle_provenance.
    unfold advance.
    destruct (run_timers_provenance V t (length (Timers.queue (timers st))) st H)
      as [Hq Hi].
    split; [exact Hq | exact Hi].
Qed.

(** X1.  Whatever happens on the page, every request the controller has
    made asks for the trimmed form of a text that was typed, at least two
    code units long after trimming: nothing is looked up that was not
    typed, nothing shorter than two code units, nothing with white space
    around it. *)
Theorem requests_are_typed (start : Z) (trace : list (Z * Event)) (r : Request) :
  In r (issued (run trace (initSearchSuggestions start))) ->
  exists v e,
    In v (typed trace)
    /\ (2 <= length (trim v))%nat
    /\ encodeURIComponent (trim v) = Some e
    /\ Search.url r = lit "/api/search/suggest?q=" ++ e.
Proof.
  intros Hr.
  destruct (run_provenance trace [] (initSearchSuggestions start)) as [_ Hi];
    [split; constructor|].
  rewrite List.Forall_forall in Hi. exact (Hi r Hr).
Qed.

Lemma requests_are_typed_witness :
  let trace := [(0, Input (lit "ph")); (100, Input (lit " phy ")); (500, Click true false)] in
  exists v e,
    In v (typed trace)
    /\ (2 <= length (trim v))%nat
    /\ encodeURIComponent (trim v) = Some e
    /\ lit "/api/search/suggest?q=phy" = lit "/api/search/suggest?q=" ++ e.
Proof.
  intros trace.
  exact (requests_are_typed 0 trace
           {| rid := 0; Search.url := lit "/api/search/suggest?q=phy" |}
           (or_introl eq_refl)).
Defined.

(** The controller's invariant, and one timer at most. *)
Definition one_timer (st : State) : Prop :=
  wf st /\ (length (Timers.queue (timers st)) <= 1)%nat.

Lemma run_timers_one_timer (limit : Z) (fuel : nat) :
  forall st, one_timer st -> one_timer (run_timers fuel limit st).
Proof.
  unfold one_timer, wf.
  induction fuel as [|fuel IH]; intros st [Hwf Hlen]; [now split|].
  simpl. unfold Timers.pop.
  destruct (Timers.queue (timers st)) as [|x q] eqn:Eq; [now rewrite Eq|].
  destruct (Timers.due x <=? limit); [|now rewrite Eq].
  apply IH. rewrite fire_queue.
  destruct (fire_timers (Timers.callback x)
              (with_timers (timeout st)
                 {| Timers.now := Z.max (Timers.now (timers st)) (Timers.due x);
                    Timers.nextId := Timers.nextId (timers st);
                    Timers.queue := q |} st)) as [_ ->].
  simpl. split; [now apply Forall_inv_tail in Hwf | simpl in Hlen; lia].
Qed.

Lemma handle_one_timer (e : Event) (st : State) :
  one_timer st -> one_timer (handle e st).
Proof.
  intros [Hwf Hlen]. destruct e as [value|a b|i o]; simpl.
  - unfold on_input. pose proof (clearTimeout_wf st Hwf) as Hc.
    destruct (length (trim value) <? 2)%nat; unfold one_timer, wf; simpl.
    + rewrite Hc. split; [constructor | simpl; lia].
    + rewrite Hc. simpl. split; [repeat constructor | lia].
  - unfold on_click. now destruct (negb a && negb b).
  - unfold arrive. destruct (is_inflight i st); [|now split].
    destruct o as [|status [data|]]; simpl; try now split.
    destruct (on_data data (suggestionsContainer st)); now split.
Qed.

(** X2.  In every state the controller reaches there is at most one
    pending timer, and it is the one that [timeout] names: two debounce
    timers are never live together. *)
Theorem one_pending_timer (start : Z) (trace : list (Z * Event)) :
  let st := run trace (initSearchSuggestions start) in
  (length (Timers.queue (timers st)) <= 1)%nat
  /\ Forall (fun x => timeout st = Some (Timers.tid x)) (Timers.queue (timers st)).
Proof.
  intros st. subst st.
  assert (one_timer (initSearchSuggestions start)) as H0
    by (split; [constructor | simpl; lia]).
  revert H0. generalize (initSearchSuggestions start).
  induction trace as [|[t e] trace IH]; intros st [Hwf Hlen]; [now split|].
  cbn [run fold_left]. apply (IH (step st (t, e))).
  unfold step. cbn [fst snd]. apply handle_one_timer.
  unfold advance.
  destruct (run_timers_one_timer t (length (Timers.queue (timers st))) st
              (conj Hwf Hlen)) as [H1 H2].
  split; [exact H1 | exact H2].
Qed.

(** X3.  When the texts typed are strings of UTF-16 code units, every
    request goes to [/api/search/suggest?q=] followed by unreserved
    characters and percent escapes only: the text typed cannot add a
    parameter or a fragment to the URL. *)
Theorem request_urls_are_safe (start : Z) (trace : list (Z * Event)) (r : Request) :
  Forall (Forall JsFacts.code_unit) (typed trace) ->
  In r (issued (run trace (initSearchSuggestions start))) ->
  exists e,
    Search.url r = lit "/api/search/suggest?q=" ++ e
    /\ Forall JsFacts.url_safe e.
Proof.
  intros Hv Hr.
  destruct (run_provenance trace [] (initSearchSuggestions start)) as [_ Hi];
    [split; constructor|].
  rewrite List.Forall_forall in Hi.
  destruct (Hi r Hr) as (v & e & Hin & _ & He & Hu).
  exists e. split; [exact Hu|].
  apply (JsFacts.encodeURIComponent_safe (length (trim v)) (trim v) e);
    [lia | | exact He].
  apply JsFacts.trim_Forall. rewrite List.Forall_forall in Hv. now apply Hv.
Qed.

Lemma request_urls_are_safe_witness :
  let trace := [(0, Input (lit "a b&c=#")); (400, Click false false)] in
  Forall (Forall JsFacts.code_unit) (typed trace)
  /\ exists e,
      lit "/api/search/suggest?q=a%20b%26c%3D%23" = lit "/api/search/suggest?q=" ++ e
      /\ Forall JsFacts.url_safe e.
Proof.
  intros trace.
  assert (Forall (Forall JsFacts.code_unit) (typed trace)) as Hv.
  { vm_compute. repeat constructor. }
  split; [exact Hv|].
  exact (request_urls_are_safe 0 trace
           {| rid := 0; Search.url := lit "/api/search/suggest?q=a%20b%26c%3D%23" |}
           Hv (or_introl eq_refl)).
Defined.

(** X4.  An answer changes the markup of the panel in one way only: the
    body is a non-empty array, every item of it is rendered, and the new
    markup is the whole of the rendering, shown.  Any other answer (a
    rejection, a body that is not JSON, not an array or empty, an item that
    cannot be rendered) leaves the markup as it was. *)
Theorem markup_changes_by_full_render (i : nat) (o : FetchOutcome) (st : State) :
  innerHTML (suggestionsContainer (arrive i o st)) =
  innerHTML (suggestionsContainer st)
  \/ exists status items parts,
      o = Responded status (Some (JArr items))
      /\ items <> []
      /\ mapM item_markup items = Ok parts
      /\ length parts = length items
      /\ suggestionsContainer (arrive i o st) =
         {| innerHTML := concat parts; display := lit "block" |}.
Proof.
  destruct (is_inflight i st) eqn:Hi;
    [|left; unfold arrive; now rewrite Hi].
  rewrite arrive_container by exact Hi.
  destruct o as [|status [data|]]; try (now left).
  assert ((forall items, data <> JArr items) ->
          innerHTML match on_data data (suggestionsContainer st) with
                    | Ok c => c
                    | Throw _ => suggestionsContainer st
                    end = innerHTML (suggestionsContainer st)) as Hother.
  { intros Hd. unfold on_data.
    destruct (get data (lit "length")) as [len|e]; cbn [bind]; [|reflexivity].
    destruct (strict_eq_zero len); [reflexivity|].
    destruct data; try reflexivity. now destruct (Hd items). }
  destruct data as [| | | |items|]; try (left; apply Hother; discriminate).
  destruct items as [|x items]; [now left|].
  rewrite on_data_nonempty by discriminate.
  destruct (mapM item_markup (x :: items)) as [parts|e] eqn:Hm; cbn [bind];
    [|now left].
  right. exists status, (x :: items), parts.
  split; [reflexivity|]. split; [discriminate|]. split; [exact Hm|].
  split; [|reflexivity].
  clear -Hm. revert parts Hm. generalize (x :: items). clear.
  intros items. induction items as [|x items IH]; intros parts Hm; simpl in Hm.
  - now injection Hm as <-.
  - destruct (item_markup x); [|discriminate]. cbn [bind] in Hm.
    destruct (mapM item_markup items) as [ps|]; [|discriminate].
    injection Hm as <-. simpl. f_equal. now apply IH.
Qed.

Lemma mapM_null_item (items : list json) :
  In JNull items -> exists e, mapM item_markup items = Throw e.
Proof.
  induction items as [|x items IH]; intros Hin; [contradiction|].
  cbn [mapM]. destruct Hin as [->|Hin]; [now exists TypeError|].
  destruct (item_markup x) as [p|e]; cbn [bind]; [|now exists e].
  destruct (IH Hin) as [e ->]. now exists e.
Qed.

(** X5.  One [null] among the items of an answer stops the whole
    rendering: the panel keeps its markup and its visibility, and the
    error goes to the console. *)
Theorem null_item_renders_nothing
  (i : nat) (status : Z) (items : list json) (st : State) :
  is_inflight i st = true ->
  In JNull items ->
  let st' := arrive i (Responded status (Some (JArr items))) st in
  suggestionsContainer st' = suggestionsContainer st
  /\ exists e, console st' = console st ++ [e].
Proof.
  intros Hi Hin st'. subst st'.
  destruct (mapM_null_item items Hin) as [e He].
  rewrite arrive_inflight by exact Hi.
  cbn [on_settled suggestionsContainer].
  rewrite on_data_nonempty by (intros ->; contradiction).
  rewrite He. cbn [bind]. split; [reflexivity | now exists e].
Qed.

Lemma null_item_renders_nothing_witness :
  let st' := arrive 0 (Responded 200 (Some (JArr [to_json notes; JNull])))
                    second_answered_first in
  is_inflight 0 second_answered_first = true
  /\ In JNull [to_json notes; JNull]
  /\ suggestionsContainer st' = suggestionsContainer second_answered_first
  /\ exists e, console st' = console second_answered_first ++ [e].
Proof.
  intros st'.
  assert (In JNull [to_json notes; JNull]) as Hin by (right; now left).
  split; [reflexivity|]. split; [exact Hin|].
  exact (null_item_renders_nothing 0 200 _ second_answered_first eq_refl Hin).
Defined.

(** X6.  A short text empties the panel but does not give up the requests
    in flight: when one of them is answered with suggestions afterwards,
    the panel shows them, although the text is too short to be looked
    up. *)
Theorem short_query_keeps_requests
  (value : jsstring) (i : nat) (status : Z)
  (items : list json) (ss : list Suggestion) (st : State) :
  (length (trim value) < 2)%nat ->
  is_inflight i st = true ->
  items <> [] ->
  Forall2 represents items ss ->
  suggestionsContainer
    (arrive i (Responded status (Some (JArr items))) (on_input value st)) =
  {| innerHTML := concat (map entry_markup (map entry_of ss));
     display := lit "block" |}.
Proof.
  intros Hlen Hi Hne Hr.
  assert (is_inflight i (on_input value st) = true) as Hi'.
  { unfold on_input. apply Nat.ltb_lt in Hlen. now rewrite Hlen. }
  rewrite arrive_container by exact Hi'.
  rewrite on_data_nonempty by exact Hne.
  now rewrite (mapM_item_markup items ss Hr).
Qed.

Lemma short_query_keeps_requests_witness :
  (length (trim (lit "p")) < 2)%nat
  /\ is_inflight 0 two_in_flight = true
  /\ suggestionsContainer
       (arrive 0 (Responded 200 (Some (JArr [to_json physics])))
          (on_input (lit "p") two_in_flight)) =
     {| innerHTML := concat (map entry_markup (map entry_of [physics]));
        display := lit "block" |}.
Proof.
  assert (length (trim (lit "p")) < 2)%nat as Hlen by (vm_compute; lia).
  assert ([to_json physics] <> []) as Hne by discriminate.
  assert (Forall2 represents [to_json physics] [physics]) as Hr
    by (constructor; [apply to_json_represents | constructor]).
  split; [exact Hlen|]. split; [reflexivity|].
  exact (short_query_keeps_requests (lit "p") 0 200 _ _ two_in_flight
           Hlen eq_refl Hne Hr).
Defined.

(** *** Inputs that are not part of one burst *)

(** The request that the text [v] leads to, if any, [sent] being the
    requests made before. *)
Definition lookup_for (sent : list Request) (v : jsstring) : list Request :=
  if (length (trim v) <? 2)%nat then []
  else match encodeURIComponent (trim v) with
       | Some q => [{| rid := length sent;
                       Search.url := lit "/api/search/suggest?q=" ++ q |}]
       | None => []
       end.

(** The requests made once each of the inputs has had its lookup. *)
Fixpoint lookups (sent : list Request) (inputs : list (Z * jsstring)) : list Request :=
  match inputs with
  | [] => sent
  | (_, v) :: rest => lookups (sent ++ lookup_for sent v) rest
  end.

(** Each input comes at least 300ms after the one before. *)
Fixpoint spaced (prev : Z) (inputs : list (Z * jsstring)) : Prop :=
  match inputs with
  | [] => True
  | (t, _) :: rest => prev + 300 <= t /\ spaced t rest
  end.

Lemma settled_elapsed (t t' : Z) (v : jsstring) (sent : list Request) (st : State) :
  settled t v sent st ->
  t + 300 <= t' ->
  Timers.queue (timers (advance t' st)) = []
  /\ Timers.now (timers (advance t' st)) = t'
  /\ issued (advance t' st) = sent ++ lookup_for sent v.
Proof.
  intros (Hnow & Hsent & Hq) Ht. unfold advance, lookup_for.
  destruct (length (trim v) <? 2)%nat.
  - rewrite Hq. simpl. rewrite Hq, app_nil_r. repeat split; [lia | exact Hsent].
  - destruct Hq as (id & _ & Hq). rewrite Hq. simpl. unfold Timers.pop.
    rewrite Hq. simpl.
    destruct (Z.leb_spec (t + 300) t'); [|lia]. simpl.
    destruct (encodeURIComponent (trim v)); simpl; rewrite Hsent;
      rewrite ?app_nil_r; repeat split; lia.
Qed.

Lemma spaced_run (limit : Z) (rest : list (Z * jsstring)) :
  forall t v sent st,
    settled t v sent st ->
    spaced t rest ->
    fst (List.last rest (t, v)) + 300 <= limit ->
    issued (advance limit (run (typing rest) st)) =
    lookups sent ((t, v) :: rest).
Proof.
  induction rest as [|[t' v'] rest IH]; intros t v sent st Hs Hsp Hl.
  - destruct (settled_elapsed t limit v sent st Hs Hl) as (_ & _ & Hi).
    exact Hi.
  - destruct Hsp as [Ht Hsp]. rewrite last_cons in Hl.
    destruct (settled_elapsed t t' v sent st Hs Ht) as (Hq & Hnow & Hi).
    change (run (typing ((t', v') :: rest)) st)
      with (run (typing rest) (on_input v' (advance t' st))).
    assert (Timers.queue
              (Timers.clearTimeout (timeout (advance t' st))
                                   (timers (advance t' st))) = []) as Hc.
    { destruct (timeout (advance t' st)); unfold Timers.clearTimeout;
        cbn [Timers.queue]; rewrite Hq; reflexivity. }
    pose proof (on_input_settled v' (advance t' st) Hc) as Hs'.
    rewrite Hnow, Hi in Hs'.
    exact (IH t' v' _ _ Hs' Hsp Hl).
Qed.

(** X7.  Inputs that come at least 300ms apart are each looked up, in the
    order they were typed: each of them whose trimmed text has two code
    units or more adds one request, numbered after the ones before. *)
Theorem spaced_inputs_fetch_each
  (st : State) (t1 : Z) (v1 : jsstring) (rest : list (Z * jsstring)) (limit : Z) :
  wf st ->
  Timers.now (timers st) <= t1 ->
  spaced t1 rest ->
  fst (List.last rest (t1, v1)) + 300 <= limit ->
  issued (advance limit (run (typing ((t1, v1) :: rest)) st)) =
  lookups (issued (advance t1 st)) ((t1, v1) :: rest).
Proof.
  intros Hwf Hnow Hsp Hl.
  destruct (advance_wf t1 st Hwf Hnow) as [Hwf1 Hnow1].
  pose proof (on_input_settled v1 (advance t1 st) (clearTimeout_wf _ Hwf1)) as Hs.
  rewrite Hnow1 in Hs.
  change (run (typing ((t1, v1) :: rest)) st)
    with (run (typing rest) (on_input v1 (advance t1 st))).
  exact (spaced_run limit rest t1 v1 _ _ Hs Hsp Hl).
Qed.

(** [ph], then [p] 300ms later, then [phy] 400ms later: two requests. *)
Lemma spaced_inputs_fetch_each_witness :
  let inputs := [(0, lit "ph"); (300, lit "p"); (700, lit "phy")] in
  wf (initSearchSuggestions 0)
  /\ spaced 0 (tl inputs)
  /\ issued (advance 1000 (run (typing inputs) (initSearchSuggestions 0))) =
     [{| rid := 0; Search.url := lit "/api/search/suggest?q=ph" |};
      {| rid := 1; Search.url := lit "/api/search/suggest?q=phy" |}].
Proof.
  intros inputs.
  assert (wf (initSearchSuggestions 0)) as Hwf by constructor.
  assert (spaced 0 (tl inputs)) as Hsp by (simpl; lia).
  split; [exact Hwf|]. split; [exact Hsp|].
  refine (spaced_inputs_fetch_each (initSearchSuggestions 0) 0 (lit "ph")
            (tl inputs) 1000 Hwf _ Hsp _); simpl; lia.
Defined.

End SearchFacts.

(** ** Alert auto-hide *)

Module AlertsFacts.
Import Js Alerts.



(** A queue without its identifiers. *)
Definition shape (q : list (Timers.timer Callback)) : list (Z * Callback) :=
  map (fun x => (Timers.due x, Timers.callback x)) q.









Lemma run_timers_step (f : nat) (limit : Z) (st : State) x q :
  Timers.queue (timers st) = x :: q ->
  Timers.due x <= limit ->
  run_timers (S f) limit st =
  run_timers f limit
    (fire (Timers.callback x)
       {| page := page st;
          timers := {| Timers.now := Z.max (Timers.now (timers st)) (Timers.due x);
                       Timers.nextId := Timers.nextId (timers st);
                       Timers.queue := q |} |}).
Proof.
  intros Hq Hd. simpl. unfold Timers.pop. rewrite Hq.
  destruct (Z.leb_spec (Timers.due x) limit); [reflexivity | lia].
Qed.

(** Nothing runs while the first timer is not due. *)
Lemma run_timers_stall (fuel : nat) (limit : Z) (st : State) :
  match shape (Timers.queue (timers st)) with
  | [] => True
  | (d, _) :: _ => limit < d
  end ->
  run_timers fuel limit st = st.
Proof.
  destruct fuel; [reflexivity|]. simpl. unfold Timers.pop.
  destruct (Timers.queue (timers st)) as [|x q]; [reflexivity|]. simpl.
  intros H. destruct (Z.leb_spec (Timers.due x) limit); [lia | reflexivity].
Qed.



(** *** The run of the timers is complete *)

(** Timers still to run on account of a pending one: a [Fade] brings its
    [Remove]. *)
Definition weight (cb : Callback) : nat :=
  match cb with
  | Fade _ => 2
  | Remove _ => 1
  end.

Definition work (q : list (Timers.timer Callback)) : nat :=
  list_sum (map (fun x => weight (Timers.callback x)) q).

Lemma work_enqueue (x : Timers.timer Callback) (q : list (Timers.timer Callback)) :
  work (Timers.enqueue x q) = (weight (Timers.callback x) + work q)%nat.
Proof.
  unfold work. induction q as [|y q IH]; simpl; [reflexivity|].
  destruct (Timers.due x <? Timers.due y); simpl; [reflexivity|].
  rewrite IH. lia.
Qed.

Lemma work_bound (q : list (Timers.timer Callback)) :
  (work q <= 2 * length q)%nat.
Proof.
  unfold work. induction q as [|y q IH]; simpl; [lia|].
  destruct (Timers.callback y); simpl; lia.
Qed.

(** With the queue in due order, the fuel that [advance] gives is enough:
    when the run stops, no timer that is left is due. *)
Lemma alert_timers_complete (limit : Z) (fuel : nat) :
  forall st,
    (work (Timers.queue (timers st)) <= fuel)%nat ->
    TimersFacts.sorted (Timers.queue (timers st)) ->
    Forall (fun y => limit < Timers.due y)
           (Timers.queue (timers (run_timers fuel limit st))).
Proof.
  induction fuel as [|fuel IH]; intros st Hw Hs.
  - simpl. destruct (Timers.queue (timers st)) as [|x q]; [constructor|].
    unfold work in Hw. simpl in Hw. destruct (Timers.callback x); simpl in Hw; lia.
  - destruct (Timers.queue (timers st)) as [|x q] eqn:Eq.
    + simpl. unfold Timers.pop. rewrite Eq. rewrite Eq. constructor.
    + destruct (Z.leb_spec (Timers.due x) limit) as [Hdue|Hdue].
      * rewrite (run_timers_step _ _ _ x q Eq Hdue).
        pose proof (TimersFacts.sorted_tail _ _ _ Hs) as Hq.
        unfold work in Hw. simpl in Hw. fold (work q) in Hw.
        destruct (Timers.callback x) as [j|j]; cbn [fire]; apply IH; cbn [timers].
        -- cbn [Timers.setTimeout snd Timers.queue]. rewrite work_enqueue.
           simpl in *. lia.
        -- cbn [Timers.setTimeout snd Timers.queue].
           now apply TimersFacts.enqueue_sorted.
        -- simpl in *. lia.
        -- exact Hq.
      * rewrite run_timers_stall; [|rewrite Eq; exact Hdue].
        rewrite Eq. now apply TimersFacts.sorted_not_due.
Qed.

Lemma alert_advance_complete (limit : Z) (st : State) :
  TimersFacts.sorted (Timers.queue (timers st)) ->
  Forall (fun y => limit < Timers.due y)
         (Timers.queue (timers (advance limit st))).
Proof.
  intros Hs. unfold advance. cbn [timers Timers.tick Timers.queue].
  apply alert_timers_complete; [apply work_bound | exact Hs].
Qed.

Lemma forEach_alert_sorted (elements : list Element) :
  forall i T,
    TimersFacts.sorted (Timers.queue T) ->
    TimersFacts.sorted (Timers.queue (forEach_alert i elements T)).
Proof.
  induction elements as [|e rest IH]; intros i T HT; cbn [forEach_alert];
    [exact HT|].
  apply IH. destruct (is_alert e && negb (is_permanent e)); [|exact HT].
  now apply TimersFacts.enqueue_sorted.
Qed.






(** *** What the script leaves alone *)




End AlertsFacts.

(** ** Rating stars *)

Module RatingFacts.
Import Js Exn Rating.

Lemma lookup_map {A B : Type} (f : A -> B) (l : list A) :
  forall i, map f l !! i = f <$> l !! i.
Proof.
  induction l as [|x l IH]; intros [|i]; simpl; auto.
Qed.

(** A star is drawn filled when it has the filled class and not the
    outline. *)
Definition filled (s : list jsstring) : bool :=
  ClassList.contains (lit "bi-star-fill") s
  && negb (ClassList.contains (lit "bi-star") s).

(** A star is drawn empty when it has the outline and not the filled
    class. *)
Definition outlined (s : list jsstring) : bool :=
  ClassList.contains (lit "bi-star") s
  && negb (ClassList.contains (lit "bi-star-fill") s).

(** The container shows the rating [k + 1]: the input holds it and the
    stars up to position [k] are filled, the others empty. *)
Definition rated (k : nat) (c : Container) : Prop :=
  input c = Some (number_to_string (Int (Z.of_nat (k + 1))))
  /\ forall i s, stars c !! i = Some s ->
                 filled s = (i <=? k)%nat /\ outlined s = negb (i <=? k)%nat.

(** The last click of a run of events that fell on one of [n] stars. *)
Fixpoint last_click (n : nat) (events : list Event) (seen : option nat) : option nat :=
  match events with
  | [] => seen
  | Click i :: rest =>
    last_click n rest (if (i <? n)%nat then Some i else seen)
  | _ :: rest => last_click n rest seen
  end.

Lemma refill_filled (value i : nat) (s : list jsstring) :
  filled (refill value i s) = (i <? value)%nat
  /\ outlined (refill value i s) = negb (i <? value)%nat.
Proof.
  unfold filled, outlined, refill. destruct (i <? value)%nat.
  - rewrite ClassListFacts.contains_add_same.
    rewrite ClassListFacts.contains_add_other by discriminate.
    now rewrite ClassListFacts.contains_remove_same.
  - rewrite ClassListFacts.contains_add_same.
    rewrite ClassListFacts.contains_add_other by discriminate.
    now rewrite ClassListFacts.contains_remove_same.
Qed.

Lemma on_click_rated (index : nat) (c c' : Container) :
  on_click index c = Ok c' -> rated index c'.
Proof.
  unfold on_click. destruct (input c); [|discriminate].
  intros [= <-]. split; [reflexivity|].
  cbn [stars]. intros i s. rewrite list_lookup_imap.
  destruct (stars c !! i) as [s0|]; [|discriminate]. intros [= <-].
  destruct (refill_filled (index + 1) i s0) as [-> ->].
  assert ((i <? index + 1)%nat = (i <=? index)%nat) as ->; [|auto].
  destruct (Nat.ltb_spec i (index + 1)), (Nat.leb_spec i index); auto; lia.
Qed.

(** Hovering changes no class but [text-warning]. *)
Lemma hover_classes (c : Container) (e : Event) (i : nat) (s' : list jsstring) :
  (forall k, e <> Click k) ->
  stars (handle c e) !! i = Some s' ->
  exists s, stars c !! i = Some s
            /\ forall t, t <> lit "text-warning" ->
                         ClassList.contains t s' = ClassList.contains t s.
Proof.
  intros He. unfold handle.
  destruct (index_of e <? length (stars c))%nat; [|eauto].
  destruct e as [k|k|k]; [now destruct (He k)| |].
  - cbn [on_mouseenter stars]. rewrite list_lookup_imap.
    destruct (stars c !! i) as [s|]; [|discriminate]. intros [= <-].
    exists s. split; [reflexivity|]. intros t Ht.
    destruct (i <=? k)%nat; [|reflexivity].
    now apply ClassListFacts.contains_add_other.
  - cbn [on_mouseleave stars]. rewrite lookup_map.
    destruct (stars c !! i) as [s|]; [|discriminate]. intros [= <-].
    exists s. split; [reflexivity|]. intros t Ht.
    now apply ClassListFacts.contains_remove_other.
Qed.

Lemma handle_length (c : Container) (e : Event) :
  length (stars (handle c e)) = length (stars c).
Proof.
  unfold handle. destruct (index_of e <? length (stars c))%nat; [|reflexivity].
  destruct e as [k|k|k].
  - unfold on_click. destruct (input c); [|reflexivity].
    cbn [stars]. apply length_imap.
  - cbn [on_mouseenter stars]. apply length_imap.
  - cbn [on_mouseleave stars]. apply length_map.
Qed.

Lemma handle_input (c : Container) (e : Event) :
  (input c = None -> input (handle c e) = None)
  /\ (input c <> None -> input (handle c e) <> None)
  /\ ((forall k, e <> Click k) -> input (handle c e) = input c).
Proof.
  unfold handle. destruct (index_of e <? length (stars c))%nat; [|auto].
  destruct e as [k|k|k]; cbn [on_mouseenter on_mouseleave input]; auto.
  unfold on_click. destruct (input c) eqn:E; cbn [input].
  - repeat split; try discriminate. intros H. now destruct (H k).
  - repeat split; auto.
Qed.

Lemma hover_rated (k : nat) (c : Container) (e : Event) :
  (forall j, e <> Click j) -> rated k c -> rated k (handle c e).
Proof.
  intros He [Hin Hst]. split.
  - destruct (handle_input c e) as (_ & _ & H). now rewrite H.
  - intros i s' Hs'.
    destruct (hover_classes c e i s' He Hs') as (s & Hs & Hsame).
    destruct (Hst i s Hs) as [Hf Ho]. unfold filled, outlined in *.
    now rewrite !Hsame by discriminate.
Qed.

Lemma run_rated (events : list Event) :
  forall c seen k,
    input c <> None ->
    (forall j, seen = Some j -> rated j c) ->
    last_click (length (stars c)) events seen = Some k ->
    rated k (run events c).
Proof.
  induction events as [|e events IH]; intros c seen k Hin Hseen Hk.
  - now apply Hseen.
  - cbn [run fold_left]. fold (run events (handle c e)).
    destruct (handle_input c e) as (_ & Hin' & _).
    destruct e as [i|i|i]; cbn [last_click] in Hk;
      try (apply (IH _ seen k (Hin' Hin));
           [intros j Hj; apply hover_rated; [discriminate | now apply Hseen]
           |now rewrite handle_length]).
    apply (IH _ (if (i <? length (stars c))%nat then Some i else seen) k (Hin' Hin));
      [|now rewrite handle_length].
    unfold handle. cbn [index_of].
    destruct (i <? length (stars c))%nat; [|exact Hseen].
    intros j [= <-].
    destruct (on_click i c) as [c1|err] eqn:E.
    + now apply (on_click_rated i c).
    + unfold on_click in E. destruct (input c); [discriminate | congruence].
Qed.

(** X15.  After any run of clicks and hovers on a rating with its hidden
    input, the stars drawn filled are exactly those up to the star clicked
    last, the others are drawn empty, and the input holds the position of
    that star counted from 1. *)
Theorem rating_follows_last_click (events : list Event) (c : Container) (k : nat) :
  input c <> None ->
  last_click (length (stars c)) events None = Some k ->
  let c' := run events c in
  option_map parseInt (input c') = Some (Int (Z.of_nat k + 1))
  /\ length (stars c') = length (stars c)
  /\ forall i s, stars c' !! i = Some s ->
                 filled s = (i <=? k)%nat /\ outlined s = negb (i <=? k)%nat.
Proof.
  intros Hin Hk c'. subst c'.
  destruct (run_rated events c None k Hin) as [Hv Hs]; [discriminate | exact Hk |].
  split; [|split; [|exact Hs]].
  - rewrite Hv. cbn [option_map].
    rewrite JsFacts.parseInt_number_to_string. do 2 f_equal. lia.
  - clear. revert c. induction events as [|e events IH]; intros c; [reflexivity|].
    cbn [run fold_left]. fold (run events (handle c e)).
    now rewrite IH, handle_length.
Qed.

Lemma rating_follows_last_click_witness :
  let star := [lit "bi"; lit "bi-star"] in
  let c := {| stars := [star; star; star; star; star]; input := Some [] |} in
  let c' := run [Click 4; MouseEnter 1; Click 2; MouseLeave 1; Click 7] c in
  input c' = Some (lit "3")
  /\ map filled (stars c') = [true; true; true; false; false].
Proof.
  intros star c c'.
  destruct (rating_follows_last_click
              [Click 4; MouseEnter 1; Click 2; MouseLeave 1; Click 7] c 2)
    as (_ & _ & _); [discriminate | reflexivity |].
  split; reflexivity.
Defined.

(** X16.  Hovering never changes the rating: after a [mouseenter] or a
    [mouseleave] the input holds what it held and every star has the
    classes it had, [text-warning] apart.  A [mouseenter] on a star puts
    [text-warning] on it and on the stars before it; a [mouseleave] takes
    it off every star. *)
Theorem hover_keeps_rating (c : Container) (e : Event) :
  (forall k, e <> Click k) ->
  (index_of e < length (stars c))%nat ->
  let c' := handle c e in
  input c' = input c
  /\ length (stars c') = length (stars c)
  /\ (forall i s', stars c' !! i = Some s' ->
        exists s, stars c !! i = Some s
          /\ (forall t, t <> lit "text-warning" ->
                        ClassList.contains t s' = ClassList.contains t s)
          /\ match e with
             | MouseEnter k =>
               ClassList.contains (lit "text-warning") s' =
               (i <=? k)%nat || ClassList.contains (lit "text-warning") s
             | _ => ClassList.contains (lit "text-warning") s' = false
             end).
Proof.
  intros He Hr c'. subst c'.
  destruct (handle_input c e) as (_ & _ & Hin).
  split; [now apply Hin|]. split; [apply handle_length|].
  intros i s' Hs'.
  destruct (hover_classes c e i s' He Hs') as (s & Hs & Hsame).
  exists s. split; [exact Hs|]. split; [exact Hsame|].
  unfold handle in Hs'. apply Nat.ltb_lt in Hr. rewrite Hr in Hs'.
  destruct e as [k|k|k]; [now destruct (He k)| |].
  - cbn [on_mouseenter stars] in Hs'. rewrite list_lookup_imap, Hs in Hs'.
    injection Hs' as <-. destruct (i <=? k)%nat; [|reflexivity].
    apply ClassListFacts.contains_add_same.
  - cbn [on_mouseleave stars] in Hs'. rewrite lookup_map, Hs in Hs'.
    injection Hs' as <-. apply ClassListFacts.contains_remove_same.
Qed.

Lemma hover_keeps_rating_witness :
  let c := {| stars := [[lit "bi-star-fill"]; [lit "bi-star"]; [lit "bi-star"]];
              input := Some (lit "1") |} in
  let c' := handle c (MouseEnter 1) in
  input c' = Some (lit "1")
  /\ map (ClassList.contains (lit "text-warning")) (stars c') = [true; true; false].
Proof.
  intros c c'.
  destruct (hover_keeps_rating c (MouseEnter 1)) as (Hin & _ & _);
    [discriminate | simpl; lia |].
  split; [exact Hin | reflexivity].
Defined.

(** X17.  Without the hidden input a click fills nothing: whatever is
    clicked or hovered, no star gains or loses a star class, and there is
    still no value. *)
Theorem rating_without_input (events : list Event) (c : Container) :
  input c = None ->
  let c' := run events c in
  input c' = None
  /\ forall i s', stars c' !! i = Some s' ->
       exists s, stars c !! i = Some s
         /\ forall t, t <> lit "text-warning" ->
                      ClassList.contains t s' = ClassList.contains t s.
Proof.
  intros Hin c'. subst c'. revert c Hin.
  induction events as [|e events IH]; intros c Hin; [eauto|].
  cbn [run fold_left]. fold (run events (handle c e)).
  destruct (handle_input c e) as (Hnone & _ & _).
  destruct (IH (handle c e) (Hnone Hin)) as [Hin' Hst].
  split; [exact Hin'|]. intros i s' Hs'.
  destruct (Hst i s' Hs') as (s1 & Hs1 & Hsame1).
  assert (exists s, stars c !! i = Some s
                    /\ forall t, t <> lit "text-warning" ->
                                 ClassList.contains t s1 = ClassList.contains t s)
    as (s & Hs & Hsame).
  { destruct e as [k|k|k];
      try (eapply hover_classes; [|exact Hs1]; discriminate).
    unfold handle, on_click in Hs1. rewrite Hin in Hs1.
    exists s1. split; [|reflexivity].
    now destruct (index_of (Click k) <? length (stars c))%nat. }
  exists s. split; [exact Hs|]. intros t Ht.
  now rewrite Hsame1, Hsame.
Qed.

Lemma rating_without_input_witness :
  let c := {| stars := [[lit "bi-star"]; [lit "bi-star"]]; input := None |} in
  let c' := run [Click 1; MouseEnter 0] c in
  input c' = None
  /\ map filled (stars c') = [false; false].
Proof.
  intros c c'.
  destruct (rating_without_input [Click 1; MouseEnter 0] c eq_refl) as [Hin _].
  split; [exact Hin | reflexivity].
Defined.

End RatingFacts.

(** ** Bottom navigation on mobile *)

Module MobileNavFacts.
Import Js MobileNav.

Lemma gt_spec (a b : Q) : gt a b = true <-> (b < a)%Q.
Proof.
  unfold gt. rewrite negb_true_iff. split.
  - intros H. apply Qnot_le_lt. intros Hle. apply Qle_bool_iff in Hle. congruence.
  - intros H. destruct (Qle_bool a b) eqn:E; [|reflexivity].
    apply Qle_bool_iff in E. now apply Qlt_not_le in H.
Qed.

(** The position that the listener remembers is the one of the scroll
    event before. *)
Lemma run_lastScrollTop (events : list Scroll) (nav : Nav) :
  lastScrollTop (run events nav) =
  match rev events with
  | p :: _ => scrollTop p
  | [] => lastScrollTop nav
  end.
Proof.
  induction events as [|s events IH] using rev_ind; [reflexivity|].
  unfold run. rewrite fold_left_app, rev_app_distr. reflexivity.
Qed.

(** X18.  After any run of scroll events the bar is moved out of view
    exactly when the last event found the page further down than the
    event before it (or than 0, for the first event) and further down
    than 100; in every other case, scrolling up or standing still
    included, it is put back in view. *)
Theorem nav_follows_last_two (events : list Scroll) (s : Scroll) :
  let prev := match rev events with
              | p :: _ => scrollTop p
              | [] => 0%Q
              end in
  let nav := run (events ++ [s]) initMobileNav in
  let down := (prev < scrollTop s)%Q /\ (100 < scrollTop s)%Q in
  (down -> transform nav = lit "translateY(100%)")
  /\ (~ down -> transform nav = lit "translateY(0)")
  /\ lastScrollTop nav = scrollTop s.
Proof.
  intros prev nav down. subst prev nav down.
  unfold run. rewrite fold_left_app. cbn [fold_left on_scroll transform lastScrollTop].
  fold (run events initMobileNav). rewrite run_lastScrollTop.
  change (lastScrollTop initMobileNav) with 0%Q.
  set (prev := match rev events with p :: _ => scrollTop p | [] => 0%Q end).
  destruct (gt (scrollTop s) prev) eqn:E1; destruct (gt (scrollTop s) 100) eqn:E2;
    cbn [andb]; repeat split; try reflexivity;
    try (intros [H1 H2]; apply gt_spec in H1; apply gt_spec in H2; congruence);
    try (intros H; exfalso; apply H; split; now apply gt_spec).
Qed.

End MobileNavFacts.

(** ** File names *)

Module FileNamesFacts.
Import Js FileNames.

Definition no_stop (s : jsstring) : Prop := Forall (fun c => c <> 46%N) s.

Definition ascii (s : jsstring) : Prop := forallb is_ascii s = true.

Lemma last_segment_from_no_stop (ext : jsstring) :
  no_stop ext -> forall acc, last_segment_from acc ext = acc ++ ext.
Proof.
  induction 1 as [|c ext Hc _ IH]; intros acc; simpl; [now rewrite app_nil_r|].
  apply N.eqb_neq in Hc. rewrite Hc, IH, <- app_assoc. reflexivity.
Qed.

(** What follows the last full stop is the last segment. *)
Lemma last_segment_stem (stem ext : jsstring) :
  no_stop ext -> forall acc, last_segment_from acc (stem ++ 46%N :: ext) = ext.
Proof.
  intros He. induction stem as [|c stem IH]; intros acc; simpl.
  - now rewrite last_segment_from_no_stop.
  - destruct (c =? 46)%N; apply IH.
Qed.

Lemma last_segment_from_split (s : jsstring) :
  forall acc,
    no_stop acc ->
    no_stop (last_segment_from acc s)
    /\ (last_segment_from acc s = acc ++ s
        \/ exists stem, acc ++ s = stem ++ 46%N :: last_segment_from acc s).
Proof.
  induction s as [|c s IH]; intros acc Hacc; simpl.
  - split; [exact Hacc|]. left. now rewrite app_nil_r.
  - destruct (N.eqb_spec c 46) as [->|Hc].
    + destruct (IH [] (List.Forall_nil _)) as [Hn [H|[stem H]]]; split; try exact Hn; right.
      * exists acc. now rewrite H.
      * exists (acc ++ 46%N :: stem). simpl in H. rewrite H at 1.
        now rewrite <- app_assoc.
    + destruct (IH (acc ++ [c])) as [Hn [H|[stem H]]].
      * apply Forall_app. split; [exact Hacc|]. now constructor.
      * split; [exact Hn|]. left. now rewrite H, <- app_assoc.
      * split; [exact Hn|]. right. exists stem. now rewrite <- H, <- app_assoc.
Qed.

Lemma ascii_app (a b : jsstring) : ascii (a ++ b) <-> ascii a /\ ascii b.
Proof. unfold ascii. rewrite forallb_app. apply andb_true_iff. Qed.

Lemma lower_upper (c : N) : lower (upper c) = lower c.
Proof.
  unfold lower, upper.
  destruct ((97 <=? c) && (c <=? 122))%N eqn:E.
  - apply andb_true_iff in E as [E1 E2]. apply N.leb_le in E1, E2.
    replace ((65 <=? c - 32)%N) with true by (symmetry; apply N.leb_le; lia).
    replace ((c - 32 <=? 90)%N) with true by (symmetry; apply N.leb_le; lia).
    replace ((65 <=? c)%N) with true by (symmetry; apply N.leb_le; lia).
    replace ((c <=? 90)%N) with false by (symmetry; apply N.leb_gt; lia).
    simpl. lia.
  - reflexivity.
Qed.

Lemma upper_ascii (c : N) : is_ascii c = true -> is_ascii (upper c) = true.
Proof.
  unfold is_ascii, upper. intros H. apply N.ltb_lt in H.
  destruct ((97 <=? c) && (c <=? 122))%N; apply N.ltb_lt; lia.
Qed.

Lemma upper_stop (c : N) : c <> 46%N -> upper c <> 46%N.
Proof.
  unfold upper. intros H.
  destruct ((97 <=? c) && (c <=? 122))%N eqn:E; [|exact H].
  apply andb_true_iff in E as [E1 E2]. apply N.leb_le in E1, E2. lia.
Qed.

Lemma map_upper (s : jsstring) :
  ascii s -> no_stop s ->
  ascii (map upper s) /\ no_stop (map upper s)
  /\ map lower (map upper s) = map lower s.
Proof.
  unfold ascii. intros Ha Hn. induction Hn as [|c s Hc _ IH]; simpl in *.
  - repeat split. constructor.
  - apply andb_true_iff in Ha as [Hc' Ha]. destruct (IH Ha) as (H1 & H2 & H3).
    rewrite (upper_ascii c Hc'), H1, lower_upper, H3.
    repeat split. constructor; [now apply upper_stop | exact H2].
Qed.

(** X19.  The icon of a file depends on what follows the last full stop
    of its name and on nothing else, whatever the case of the letters: a
    name made of any stem, a full stop and an extension, in capitals or
    not, gets the icon of the extension alone.  (Names of ASCII
    characters.) *)
Theorem getFileIcon_by_extension (stem ext : jsstring) :
  ascii ext ->
  no_stop ext ->
  getFileIcon ext = Some (icon_for (map lower ext))
  /\ getFileIcon (stem ++ lit "." ++ ext) = getFileIcon ext
  /\ getFileIcon (stem ++ lit "." ++ map upper ext) = getFileIcon ext.
Proof.
  intros Ha Hn. destruct (map_upper ext Ha Hn) as (Hua & Hun & Hlu).
  unfold getFileIcon, last_segment, toLowerCase.
  change (lit ".") with [46%N]. cbn [app].
  rewrite !last_segment_stem by assumption.
  rewrite (last_segment_from_no_stop ext Hn). cbn [app].
  unfold ascii in Ha, Hua. rewrite Ha, Hua, Hlu. auto.
Qed.

Lemma getFileIcon_by_extension_witness :
  getFileIcon (lit "pdf") = Some (Classes (lit "bi-file-earmark-pdf text-danger"))
  /\ getFileIcon (lit "notes.v2" ++ lit "." ++ lit "pdf") = getFileIcon (lit "pdf")
  /\ getFileIcon (lit "SCAN" ++ lit "." ++ lit "PDF") = getFileIcon (lit "pdf").
Proof.
  assert (ascii (lit "pdf")) as Ha by reflexivity.
  assert (no_stop (lit "pdf")) as Hn by (repeat constructor; discriminate).
  destruct (getFileIcon_by_extension (lit "notes.v2") (lit "pdf") Ha Hn)
    as (H1 & H2 & _).
  destruct (getFileIcon_by_extension (lit "SCAN") (lit "pdf") Ha Hn)
    as (_ & _ & H3).
  split; [exact H1|]. split; [exact H2 | exact H3].
Defined.

(** X20.  [getFileExtension] of a name of ASCII characters is what
    follows its last full stop, in capitals: it has no full stop and no
    small letter, and by itself it gets the icon that the whole name
    gets. *)
Theorem getFileExtension_names_icon (filename : jsstring) :
  ascii filename ->
  exists ext,
    getFileExtension filename = Some ext
    /\ no_stop ext
    /\ Forall (fun c => ~ (97 <= c <= 122)%N) ext
    /\ getFileIcon ext = getFileIcon filename.
Proof.
  intros Ha. unfold getFileExtension, getFileIcon, last_segment.
  destruct (last_segment_from_split filename [] (List.Forall_nil _)) as [Hn Hs].
  set (seg := last_segment_from [] filename) in *.
  assert (ascii seg) as Hsa.
  { destruct Hs as [Hs|[stem Hs]]; simpl in Hs.
    - now rewrite Hs.
    - rewrite Hs in Ha. apply ascii_app in Ha as [_ Ha].
      unfold ascii in *. simpl in Ha. exact Ha. }
  destruct (map_upper seg Hsa Hn) as (Hua & Hun & Hlu).
  unfold toUpperCase, toLowerCase. unfold ascii in Hsa, Hua. rewrite Hsa.
  exists (map upper seg). split; [reflexivity|]. split; [exact Hun|]. split.
  - clear. induction seg as [|c seg IH]; simpl; constructor; [|exact IH].
    unfold upper. destruct ((97 <=? c) && (c <=? 122))%N eqn:E.
    + apply andb_true_iff in E as [E1 E2]. apply N.leb_le in E1, E2. lia.
    + intros [H1 H2]. apply N.leb_le in H1, H2. rewrite H1, H2 in E. discriminate.
  - rewrite (last_segment_from_no_stop _ Hun). cbn [app]. now rewrite Hua, Hlu.
Qed.

Lemma getFileExtension_names_icon_witness :
  ascii (lit "lecture.notes.Docx")
  /\ getFileExtension (lit "lecture.notes.Docx") = Some (lit "DOCX")
  /\ getFileIcon (lit "DOCX") = getFileIcon (lit "lecture.notes.Docx").
Proof.
  assert (ascii (lit "lecture.notes.Docx")) as Ha by reflexivity.
  destruct (getFileExtension_names_icon (lit "lecture.notes.Docx") Ha)
    as (ext & He & _ & _ & Hi).
  split; [exact Ha|]. split; [reflexivity|].
  assert (ext = lit "DOCX") as <-; [|exact Hi].
  vm_compute in He. now injection He as <-.
Defined.

(** X21.  The icon of a name of ASCII characters is a class string, one
    of the table or the default, unless what follows the last full stop
    is, in small letters, [constructor] or [__proto__]: the lookup then
    finds what every object inherits and returns that instead of a class
    string. *)
Theorem getFileIcon_is_class_string (filename : jsstring) :
  ascii filename ->
  exists ext,
    toLowerCase (last_segment filename) = Some ext
    /\ getFileIcon filename = Some (icon_for ext)
    /\ ((ext <> lit "constructor" /\ ext <> lit "__proto__") <->
        exists classes,
          icon_for ext = Classes classes
          /\ In classes (lit "bi-file-earmark text-secondary" :: map snd icons)).
Proof.
  intros Ha. unfold getFileIcon, last_segment.
  destruct (last_segment_from_split filename [] (List.Forall_nil _)) as [_ Hs].
  set (seg := last_segment_from [] filename) in *.
  assert (ascii seg) as Hsa.
  { destruct Hs as [Hs|[stem Hs]]; simpl in Hs.
    - now rewrite Hs.
    - rewrite Hs in Ha. apply ascii_app in Ha as [_ Ha].
      unfold ascii in *. simpl in Ha. exact Ha. }
  unfold toLowerCase. unfold ascii in Hsa. rewrite Hsa.
  exists (map lower seg). split; [reflexivity|]. split; [reflexivity|].
  generalize (map lower seg). intros ext. unfold icon_for.
  assert (forall v, own ext icons = Some v -> In v (map snd icons)
                    /\ ext <> lit "constructor" /\ ext <> lit "__proto__") as Hown.
  { intros v. unfold icons. cbn [own].
    repeat (match goal with
            | |- context [Js.eqb ?k ext] =>
              destruct (Js.eqb k ext) eqn:E;
              [apply JsFacts.eqb_eq in E; subst ext; intros [= <-];
               split; [cbn [map snd]; repeat (first [left; reflexivity | right])
                      |split; intros H; vm_compute in H; discriminate]
              |clear E]
            end).
    discriminate. }
  destruct (own ext icons) as [v|].
  - destruct (Hown v eq_refl) as (Hin & H1 & H2). split.
    + intros _. exists v. split; [reflexivity | now right].
    + intros _. now split.
  - destruct (Js.eqb ext (lit "constructor")) eqn:E1;
      [|destruct (Js.eqb ext (lit "__proto__")) eqn:E2].
    + apply JsFacts.eqb_eq in E1. split.
      * intros [H _]. contradiction.
      * intros (classes & H & _). discriminate.
    + apply JsFacts.eqb_eq in E2. split.
      * intros [_ H]. contradiction.
      * intros (classes & H & _). discriminate.
    + split.
      * intros _. eexists. split; [reflexivity | now left].
      * intros _. split; intros ->; discriminate.
Qed.

Lemma getFileIcon_is_class_string_witness :
  ascii (lit "my.Constructor")
  /\ getFileIcon (lit "my.Constructor") = Some ObjectConstructor
  /\ getFileIcon (lit "archive.tar.gz") =
     Some (Classes (lit "bi-file-earmark text-secondary")).
Proof.
  assert (ascii (lit "my.Constructor")) as Ha by reflexivity.
  destruct (getFileIcon_is_class_string (lit "my.Constructor") Ha)
    as (ext & _ & Hi & _).
  split; [exact Ha|]. split; reflexivity.
Defined.

End FileNamesFacts.

(** ** Toasts *)

Module ToastFacts.
Import Js Toast.








End ToastFacts.
